(** * The gacha economy of [exts/gacha_cmds.py]

    A shallow embedding of the four command handlers of [GachaCommands]
    ([gacha_draw], [gacha_profile], [gacha_give_currency],
    [gacha_user_view_item]) over an explicit model of the three database
    tables they touch.  A handler is a tree of database queries: every
    [await] on the database is one node, and the code between two awaits is
    the pure continuation.  The same tree is run to completion for
    sequential histories and stepped one query at a time for interleaved
    ones. *)

From Stdlib Require Import ZArith List Bool String Lia Permutation QArith.
Import ListNotations.

Local Open Scope Z_scope.

(** ** Tables *)

(** [PrismaGachaPlayer]: primary key, guild, user, balance. *)
Record GachaPlayer : Type := mkPlayer {
  p_id : Z;
  p_guild_id : Z;
  p_user_id : Z;
  currency_amount : Z
}.

(** [PrismaGachaItem]: [amount] is the stock, [-1] meaning unlimited. *)
Record GachaItem : Type := mkItem {
  i_id : Z;
  i_guild_id : Z;
  i_name : string;
  amount : Z
}.

(** [PrismaItemToPlayer]: one row per successful draw. *)
Record ItemToPlayer : Type := mkLink {
  l_item_id : Z;
  l_player_id : Z
}.

(** Rows are kept in insertion order. *)
Record Store : Type := mkStore {
  players : list GachaPlayer;
  items : list GachaItem;
  links : list ItemToPlayer
}.

(** ** Errors and replies *)

Inductive Error : Type :=
| CustomCheckFailure (msg : string)
| BadArgument (msg : string)
| RecordNotFoundError
| UniqueViolationError.

Inductive Result (A : Type) : Type :=
| Ok (a : A)
| Err (e : Error).
Arguments Ok {A} a.
Arguments Err {A} e.

(** What a handler sends back with [ctx.send]. *)
Inductive Reply : Type :=
| ItemEmbed (item : GachaItem)
| ProfileEmbeds (player : GachaPlayer)
| GaveCurrency (amount : Z).

(** ** Context and configuration *)

Record Member : Type := mkMember {
  m_id : Z;
  m_roles : list Z
}.

Record Context : Type := mkContext {
  guild_id : Z;
  author : Member
}.

(** The value [ctx.fetch_config] returns: the guild's player role, and the
    [enabled] flag and [currency_cost] of its gacha section. *)
Record Config : Type := mkConfig {
  player_role : option Z;
  gacha_enabled : bool;
  gacha_currency_cost : Z
}.

(** Python truthiness of [config.player_role]: [None] and [0] are false. *)
Definition role_set (c : Config) : bool :=
  match player_role c with
  | None => false
  | Some r => negb (r =? 0)
  end.

(** [member.has_role(config.player_role)]. *)
Definition has_role (m : Member) (r : option Z) : bool :=
  match r with
  | None => false
  | Some r => existsb (Z.eqb r) (m_roles m)
  end.

(** ** Queries *)

(** The writes queued in one [db.batch_()] block. *)
Inductive BatchOp : Type :=
| ItemUpdateAmount (item_id : Z) (new_amount : Z)
| PlayerDecrement (player_id : Z) (by_amount : Z)
| LinkCreate (item_id : Z) (player_id : Z).

(** One awaited database call, indexed by the type of its answer. *)
Inductive Query : Type -> Type :=
| PlayerFindFirst (g u : Z) : Query (option GachaPlayer)
| PlayerCreate (g u : Z) : Query GachaPlayer
| PlayerSave (p : GachaPlayer) : Query unit
| ItemCount (g : Z) : Query Z
| ItemFindFirstOrRaise (skip : Z) (g : Z) : Query GachaItem
| ItemFindOwned (g : Z) (name : string) (u : Z) : Query (option GachaItem)
| Batch (ops : list BatchOp) : Query unit.

(** ** Query semantics *)

Definition is_player (g u : Z) (p : GachaPlayer) : bool :=
  (p_guild_id p =? g) && (p_user_id p =? u).

Definition find_player (g u : Z) (s : Store) : option GachaPlayer :=
  find (is_player g u) (players s).

(** Autoincrement primary key: one more than the largest key in use. *)
Definition next_id (ids : list Z) : Z :=
  1 + fold_right Z.max 0 ids.

(** The [where] clause of the draw: the guild's items with [amount != 0]. *)
Definition in_stock (g : Z) (i : GachaItem) : bool :=
  (i_guild_id i =? g) && negb (amount i =? 0).

(** [order={"id": "asc"}]: insertion sort on the primary key. *)
Fixpoint insert_by_id (i : GachaItem) (l : list GachaItem) : list GachaItem :=
  match l with
  | [] => [i]
  | j :: l' => if i_id i <=? i_id j then i :: l else j :: insert_by_id i l'
  end.

Fixpoint sort_by_id (l : list GachaItem) : list GachaItem :=
  match l with
  | [] => []
  | i :: l' => insert_by_id i (sort_by_id l')
  end.

(** The rows the draw counts and then skips into. *)
Definition eligible (g : Z) (s : Store) : list GachaItem :=
  sort_by_id (filter (in_stock g) (items s)).

(** The [players: some: player: is: ...] filter of [view-item]. *)
Definition owned_by (g u : Z) (s : Store) (i : GachaItem) : bool :=
  existsb (fun l =>
    (l_item_id l =? i_id i) &&
    existsb (fun p => (p_id p =? l_player_id l) && is_player g u p) (players s))
    (links s).

Definition has_player_id (id : Z) (s : Store) : bool :=
  existsb (fun p => p_id p =? id) (players s).

Definition has_item_id (id : Z) (s : Store) : bool :=
  existsb (fun i => i_id i =? id) (items s).

Definition set_amount (id a : Z) (i : GachaItem) : GachaItem :=
  if i_id i =? id then mkItem (i_id i) (i_guild_id i) (i_name i) a else i.

Definition decrement (id c : Z) (p : GachaPlayer) : GachaPlayer :=
  if p_id p =? id
  then mkPlayer (p_id p) (p_guild_id p) (p_user_id p) (currency_amount p - c)
  else p.

Definition overwrite (q p : GachaPlayer) : GachaPlayer :=
  if p_id p =? p_id q then q else p.

(** One queued write; [None] when the row it names does not exist. *)
Definition apply_op (op : BatchOp) (s : Store) : option Store :=
  match op with
  | ItemUpdateAmount id a =>
      if has_item_id id s
      then Some (mkStore (players s) (map (set_amount id a) (items s)) (links s))
      else None
  | PlayerDecrement id c =>
      if has_player_id id s
      then Some (mkStore (map (decrement id c) (players s)) (items s) (links s))
      else None
  | LinkCreate iid pid =>
      if has_item_id iid s && has_player_id pid s
      then Some (mkStore (players s) (items s) (links s ++ [mkLink iid pid]))
      else None
  end.

Fixpoint apply_batch (ops : list BatchOp) (s : Store) : option Store :=
  match ops with
  | [] => Some s
  | op :: ops' =>
      match apply_op op s with
      | Some s' => apply_batch ops' s'
      | None => None
      end
  end.

Section Database.

(** Whether the schema declares [(guild_id, user_id)] unique on the player
    table.  The schema is not part of the sources at hand, so both
    possibilities are kept. *)
Variable unique_user : bool.

(** Modelled from the spec: the model layer ([common/models.py]) and the
    schema are missing.  [get_or_none] is a [find_first] on guild and user,
    [prisma().create] inserts a row with a fresh key and the default balance
    [0] ("created lazily", "a fresh record with zero balance"), [save]
    writes the object's fields to the row with its key, and a batch commits
    all of its writes or none. *)
Definition exec {X : Type} (q : Query X) (s : Store) : Result X * Store :=
  match q in Query X return Result X * Store with
  | PlayerFindFirst g u => (Ok (find_player g u s), s)
  | PlayerCreate g u =>
      match unique_user, find_player g u s with
      | true, Some _ => (Err UniqueViolationError, s)
      | _, _ =>
          let p := mkPlayer (next_id (map p_id (players s))) g u 0 in
          (Ok p, mkStore (players s ++ [p]) (items s) (links s))
      end
  | PlayerSave p =>
      if has_player_id (p_id p) s
      then (Ok tt, mkStore (map (overwrite p) (players s)) (items s) (links s))
      else (Err RecordNotFoundError, s)
  | ItemCount g => (Ok (Z.of_nat (List.length (eligible g s))), s)
  | ItemFindFirstOrRaise skip g =>
      if skip <? 0 then (Err RecordNotFoundError, s)
      else match nth_error (eligible g s) (Z.to_nat skip) with
           | Some i => (Ok i, s)
           | None => (Err RecordNotFoundError, s)
           end
  | ItemFindOwned g name u =>
      (Ok (find (fun i => (i_guild_id i =? g) && String.eqb (i_name i) name
                          && owned_by g u s i) (items s)), s)
  | Batch ops =>
      match apply_batch ops s with
      | Some s' => (Ok tt, s')
      | None => (Err RecordNotFoundError, s)
      end
  end.

End Database.

(** ** Handlers as query trees *)

Inductive Prog (A : Type) : Type :=
| Ret (a : A)
| Raise (e : Error)
| Vis (X : Type) (q : Query X) (k : X -> Prog A).
Arguments Ret {A} a.
Arguments Raise {A} e.
Arguments Vis {A X} q k.

Notation "x <- q ;; k" := (Vis q (fun x => k))
  (at level 61, q at next level, right associativity).
Notation "q ;;; k" := (Vis q (fun _ => k))
  (at level 61, right associativity).

Definition not_enabled : Error :=
  CustomCheckFailure "Gacha is not enabled in this server.".
Definition no_player_role : Error :=
  CustomCheckFailure "You do not have the Player role.".
Definition insufficient_funds_draw : Error :=
  CustomCheckFailure "You do not have enough currency to draw from the gacha.".
Definition out_of_stock : Error :=
  CustomCheckFailure "No items to draw.".
Definition no_data : Error :=
  BadArgument "You have no data for gacha.".
Definition insufficient_funds_give : Error :=
  CustomCheckFailure "You do not have enough currency to give.".
Definition recipient_no_data : Error :=
  BadArgument "The recipient has no data for gacha.".
Definition item_not_found : Error :=
  BadArgument "Item either does not exist or you do not have it.".

(** The in-memory [item.amount -= 1] and [x.currency_amount += d]. *)
Definition with_amount (i : GachaItem) (a : Z) : GachaItem :=
  mkItem (i_id i) (i_guild_id i) (i_name i) a.

Definition with_currency (p : GachaPlayer) (c : Z) : GachaPlayer :=
  mkPlayer (p_id p) (p_guild_id p) (p_user_id p) c.

(** Modelled from the spec: [GachaPlayer.get_or_create] of the missing
    model layer, "load or lazily create the Player row". *)
Definition get_or_create (g u : Z) (k : GachaPlayer -> Prog Reply) : Prog Reply :=
  found <- PlayerFindFirst g u ;;
  match found with
  | Some p => k p
  | None => p <- PlayerCreate g u ;; k p
  end.

(** [gacha_draw]; [randint] stands for [random.randint]. *)
Definition gacha_draw (randint : Z -> Z -> Z) (ctx : Context) (config : Config)
  : Prog Reply :=
  if negb (role_set config) || negb (gacha_enabled config) then Raise not_enabled
  else if negb (has_role (author ctx) (player_role config))
  then Raise no_player_role
  else
    get_or_create (guild_id ctx) (m_id (author ctx)) (fun player =>
    if currency_amount player <? gacha_currency_cost config
    then Raise insufficient_funds_draw
    else
      item_count <- ItemCount (guild_id ctx) ;;
      if item_count =? 0 then Raise out_of_stock
      else
        item <- ItemFindFirstOrRaise (randint 0 (item_count - 1)) (guild_id ctx) ;;
        let item' := if negb (amount item =? -1)
                     then with_amount item (amount item - 1) else item in
        Batch ((if negb (amount item =? -1)
                then [ItemUpdateAmount (i_id item) (amount item')] else [])
               ++ [PlayerDecrement (p_id player) (gacha_currency_cost config);
                   LinkCreate (i_id item) (p_id player)]) ;;;
        Ret (ItemEmbed item')).

(** [gacha_profile]. *)
Definition gacha_profile (ctx : Context) (config : Config) : Prog Reply :=
  if negb (role_set config) || negb (gacha_enabled config) then Raise not_enabled
  else
    found <- PlayerFindFirst (guild_id ctx) (m_id (author ctx)) ;;
    match found with
    | Some player => Ret (ProfileEmbeds player)
    | None =>
        if negb (has_role (author ctx) (player_role config)) then Raise no_data
        else
          player <- PlayerCreate (guild_id ctx) (m_id (author ctx)) ;;
          Ret (ProfileEmbeds player)
    end.

(** Lines 164-173 of [gacha_give_currency]: both objects are changed in
    memory, then the recipient's is saved, then the sender's. *)
Definition give_commit (amount : Z) (player recipient_player : GachaPlayer)
  : Prog Reply :=
  let recipient_player' :=
    with_currency recipient_player (currency_amount recipient_player + amount) in
  let player' := with_currency player (currency_amount player - amount) in
  PlayerSave recipient_player' ;;;
  PlayerSave player' ;;;
  Ret (GaveCurrency amount).

(** [gacha_give_currency] from the balance check on. *)
Definition give_from (ctx : Context) (config : Config) (recipient : Member)
  (amount : Z) (player : GachaPlayer) : Prog Reply :=
  if currency_amount player <? amount then Raise insufficient_funds_give
  else
    found <- PlayerFindFirst (guild_id ctx) (m_id recipient) ;;
    match found with
    | Some recipient_player => give_commit amount player recipient_player
    | None =>
        if negb (has_role recipient (player_role config))
        then Raise recipient_no_data
        else
          (* line 161: the new row is keyed by [ctx.author.id] *)
          recipient_player <- PlayerCreate (guild_id ctx) (m_id (author ctx)) ;;
          give_commit amount player recipient_player
    end.

(** [gacha_give_currency], the handler body. *)
Definition gacha_give_currency (ctx : Context) (config : Config)
  (recipient : Member) (amount : Z) : Prog Reply :=
  if negb (role_set config) || negb (gacha_enabled config) then Raise not_enabled
  else
    found <- PlayerFindFirst (guild_id ctx) (m_id (author ctx)) ;;
    match found with
    | Some player => give_from ctx config recipient amount player
    | None =>
        if negb (has_role (author ctx) (player_role config)) then Raise no_data
        else
          player <- PlayerCreate (guild_id ctx) (m_id (author ctx)) ;;
          give_from ctx config recipient amount player
    end.

(** The bounds the [amount] option of [give-currency] declares on line
    133, [tansy.Option(..., min_value=1, max_value=999)].  They are part of
    the command's declaration; [gacha_give_currency] does not look at
    them. *)
Definition amount_min_value : Z := 1.
Definition amount_max_value : Z := 999.

(** [gacha_user_view_item]. *)
Definition gacha_user_view_item (ctx : Context) (name : string) : Prog Reply :=
  found <- ItemFindOwned (guild_id ctx) name (m_id (author ctx)) ;;
  match found with
  | Some item => Ret (ItemEmbed item)
  | None => Raise item_not_found
  end.

(** ** Running handlers *)

Section Execution.

Variable unique_user : bool.

(** One handler run start to finish with nothing in between. *)
Fixpoint run {A : Type} (p : Prog A) (s : Store) : Result A * Store :=
  match p with
  | Ret a => (Ok a, s)
  | Raise e => (Err e, s)
  | Vis q k =>
      match exec unique_user q s with
      | (Ok x, s') => run (k x) s'
      | (Err e, s') => (Err e, s')
      end
  end.

(** One query of one handler: the unit of interleaving. *)
Definition step {A : Type} (p : Prog A) (s : Store) : Prog A * Store :=
  match p with
  | Vis q k =>
      match exec unique_user q s with
      | (Ok x, s') => (k x, s')
      | (Err e, s') => (Raise e, s')
      end
  | _ => (p, s)
  end.

(** A handler advanced by [n] queries with nothing in between. *)
Definition steps {A : Type} (n : nat) (p : Prog A) (s : Store) : Prog A * Store :=
  Nat.iter n (fun w => step (fst w) (snd w)) (p, s).

Fixpoint update_nth {A : Type} (n : nat) (a : A) (l : list A) : list A :=
  match l, n with
  | [], _ => []
  | _ :: l', O => a :: l'
  | b :: l', S n' => b :: update_nth n' a l'
  end.

(** Handlers in flight and the store they share; [schedule_step i] lets
    handler [i] perform its next query. *)
Definition World : Type := (list (Prog Reply) * Store)%type.

Definition schedule_step (i : nat) (w : World) : World :=
  match nth_error (fst w) i with
  | Some p => let '(p', s') := step p (snd w) in (update_nth i p' (fst w), s')
  | None => w
  end.

Definition interleave (schedule : list nat) (w : World) : World :=
  fold_left (fun w i => schedule_step i w) schedule w.

End Execution.

(** ** Commands and histories *)

Inductive Command : Type :=
| Draw (randint : Z -> Z -> Z) (ctx : Context) (config : Config)
| Transfer (ctx : Context) (config : Config) (recipient : Member) (amount : Z)
| GetProfile (ctx : Context) (config : Config)
| GetItem (ctx : Context) (name : string).

Definition handle (c : Command) : Prog Reply :=
  match c with
  | Draw randint ctx config => gacha_draw randint ctx config
  | Transfer ctx config recipient amount =>
      gacha_give_currency ctx config recipient amount
  | GetProfile ctx config => gacha_profile ctx config
  | GetItem ctx name => gacha_user_view_item ctx name
  end.

(** The amount of a transfer is within the bounds its option declares. *)
Definition amount_as_declared (c : Command) : Prop :=
  match c with
  | Transfer _ _ _ amount => amount_min_value <= amount <= amount_max_value
  | _ => True
  end.

(** A sequential history: each command runs to completion before the next. *)
Definition run_history (unique_user : bool) (cs : list Command) (s : Store) : Store :=
  fold_left (fun s c => snd (run unique_user (handle c) s)) cs s.

(** ** Observations *)

(** The balance a user sees: that of their row, [0] before one exists. *)
Definition balance_of (g u : Z) (s : Store) : Z :=
  match find_player g u s with
  | Some p => currency_amount p
  | None => 0
  end.

Definition total_currency (s : Store) : Z :=
  fold_right (fun p acc => currency_amount p + acc) 0 (players s).

(** The store after the recipient's save, and after both. *)
Definition credited (amount : Z) (rp : GachaPlayer) (s : Store) : Store :=
  mkStore (map (overwrite (with_currency rp (currency_amount rp + amount)))
               (players s))
          (items s) (links s).

Definition debited (amount : Z) (p : GachaPlayer) (s : Store) : Store :=
  mkStore (map (overwrite (with_currency p (currency_amount p - amount)))
               (players s))
          (items s) (links s).

(** Primary keys are unique. *)
Definition player_keys_unique (s : Store) : Prop := NoDup (map p_id (players s)).
Definition item_keys_unique (s : Store) : Prop := NoDup (map i_id (items s)).

(** The row [get_or_create] hands to its continuation and the store it
    leaves. *)
Definition ensure_player (g u : Z) (s : Store) : GachaPlayer * Store :=
  match find_player g u s with
  | Some p => (p, s)
  | None =>
      let p := mkPlayer (next_id (map p_id (players s))) g u 0 in
      (p, mkStore (players s ++ [p]) (items s) (links s))
  end.


(** ** A sample guild

    Cost 10 per draw; Alice (25) and Bob (10) have rows, Carol holds the
    player role but has no row, Dave has neither; item A has one unit left
    and item B is unlimited. *)
Module Sample.

Definition config : Config := mkConfig (Some 7) true 10.

Definition alice : Member := mkMember 1 [7].
Definition bob : Member := mkMember 2 [7].
Definition carol : Member := mkMember 3 [7].
Definition dave : Member := mkMember 4 [].

Definition as_alice : Context := mkContext 100 alice.
Definition as_bob : Context := mkContext 100 bob.
Definition as_carol : Context := mkContext 100 carol.
Definition as_dave : Context := mkContext 100 dave.

Definition store : Store :=
  mkStore [mkPlayer 1 100 1 25; mkPlayer 2 100 2 10]
          [mkItem 1 100 "A" 1; mkItem 2 100 "B" (-1)]
          [].

(** Only item A, and both players can pay for exactly one draw. *)
Definition last_unit : Store :=
  mkStore [mkPlayer 1 100 1 10; mkPlayer 2 100 2 10]
          [mkItem 1 100 "A" 1]
          [].


Definition lowest (lo hi : Z) : Z := lo.
Definition highest (lo hi : Z) : Z := hi.

End Sample.

(** ** Selection *)

(** The contract of [random.randint]: a value within the closed range. *)
Definition randint_in_range (randint : Z -> Z -> Z) : Prop :=
  forall lo hi, lo <= hi -> lo <= randint lo hi <= hi.

(** The row a draw selects when [randint] returns [r]: the answer of the
    [find_first_or_raise] with [skip=r]. *)
Definition picked (g : Z) (s : Store) (r : Z) : option GachaItem :=
  if r <? 0 then None else nth_error (eligible g s) (Z.to_nat r).

(** The values [randint(0, item_count - 1)] can return. *)
Definition outcomes (g : Z) (s : Store) : list Z :=
  map Z.of_nat (seq 0 (List.length (eligible g s))).

Definition picks (g : Z) (s : Store) (e : GachaItem) (r : Z) : bool :=
  match picked g s r with
  | Some i => i_id i =? i_id e
  | None => false
  end.

(** In how many of the equally likely outcomes the draw selects [e], and
    the probability that makes. *)
Definition chances (g : Z) (s : Store) (e : GachaItem) : nat :=
  List.length (filter (picks g s e) (outcomes g s)).

Definition probability (g : Z) (s : Store) (e : GachaItem) : Q :=
  Z.of_nat (chances g s e) # Pos.of_nat (List.length (outcomes g s)).

(** The object the draw replies with: [item.amount -= 1] when finite. *)
Definition taken (e : GachaItem) : GachaItem :=
  if negb (amount e =? -1) then with_amount e (amount e - 1) else e.

(** The store after the batch of a draw of [e] by [p] at cost [c]. *)
Definition drawn (e : GachaItem) (p : GachaPlayer) (c : Z) (s : Store) : Store :=
  mkStore (map (decrement (p_id p) c) (players s))
          (if negb (amount e =? -1)
           then map (set_amount (i_id e) (amount e - 1)) (items s)
           else items s)
          (links s ++ [mkLink (i_id e) (p_id p)]).

(** ** Invariants *)

Definition balances_nonneg (s : Store) : Prop :=
  Forall (fun p => 0 <= currency_amount p) (players s).

Definition stock_at_least_unlimited (s : Store) : Prop :=
  Forall (fun i => -1 <= amount i) (items s).

(** Row by row, [s] has the items of [s0], an unlimited one still
    unlimited and a finite one still finite with a stock of at least 0. *)
Definition stock_kept (s0 s : Store) : Prop :=
  Forall2 (fun i0 i =>
             i_id i = i_id i0 /\
             (amount i0 = -1 -> amount i = -1) /\
             (0 <= amount i0 -> 0 <= amount i))
          (items s0) (items s).

(** An item key that names a finite item of [s0]. *)
Definition finite_key (s0 : Store) (id : Z) : Prop :=
  exists i0, In i0 (items s0) /\ i_id i0 = id /\ 0 <= amount i0.

(** What a handler may write to the item table, and what it may rely on in
    an answer, for the stock of [s0] to be kept. *)
Definition write_keeps_stock (s0 : Store) (op : BatchOp) : Prop :=
  match op with
  | ItemUpdateAmount id a => 0 <= a /\ finite_key s0 id
  | _ => True
  end.

Definition query_keeps_stock (s0 : Store) {X : Type} (q : Query X) : Prop :=
  match q with
  | Batch ops => Forall (write_keeps_stock s0) ops
  | _ => True
  end.

Definition answer_in_stock (s0 : Store) {X : Type} (q : Query X) : X -> Prop :=
  match q in Query X return X -> Prop with
  | ItemFindFirstOrRaise _ _ =>
      fun i => amount i = -1 \/ (1 <= amount i /\ finite_key s0 (i_id i))
  | _ => fun _ => True
  end.

Inductive keeps_stock (s0 : Store) {A : Type} : Prog A -> Prop :=
| keeps_ret (a : A) : keeps_stock s0 (Ret a)
| keeps_raise (e : Error) : keeps_stock s0 (Raise e)
| keeps_vis (X : Type) (q : Query X) (k : X -> Prog A) :
    query_keeps_stock s0 q ->
    (forall x, answer_in_stock s0 q x -> keeps_stock s0 (k x)) ->
    keeps_stock s0 (Vis q k).

(** Keys unique and balances at least 0, together. *)
Definition ledger_ok (s : Store) : Prop :=
  player_keys_unique s /\ balances_nonneg s.

(** ** What no query removes *)



(** The caller [(g, u)] has an ownership row for item [i]: the
    [players: some: player: is: ...] filter, spelled out. *)
Definition holds (g u : Z) (s : Store) (i : GachaItem) : Prop :=
  exists l p,
    In l (links s) /\ In p (players s) /\
    l_item_id l = i_id i /\ l_player_id l = p_id p /\
    p_guild_id p = g /\ p_user_id p = u.

(** The guild a command is issued in. *)
Definition command_guild (c : Command) : Z :=
  match c with
  | Draw _ ctx _ => guild_id ctx
  | Transfer ctx _ _ _ => guild_id ctx
  | GetProfile ctx _ => guild_id ctx
  | GetItem ctx _ => guild_id ctx
  end.

(** The player rows and item rows of every guild other than [g] are the
    same in [s'] as in [s]. *)
Definition other_guilds_untouched (g : Z) (s s' : Store) : Prop :=
  forall g', g' <> g ->
    filter (fun p => p_guild_id p =? g') (players s')
      = filter (fun p => p_guild_id p =? g') (players s) /\
    filter (fun i => i_guild_id i =? g') (items s')
      = filter (fun i => i_guild_id i =? g') (items s).

(** The draws of a history charge a cost of at least 0. *)
Definition cost_nonneg (c : Command) : Prop :=
  match c with
  | Draw _ _ config => 0 <= gacha_currency_cost config
  | _ => True
  end.

(** * [common/utils.py] *)

(** ** Python sequences *)

(** [range(start, stop, step)]; [None] is the [ValueError] of a zero
    step. *)
Definition py_range (start stop step : Z) : option (list Z) :=
  if step =? 0 then None
  else
    let count :=
      if 0 <? step
      then Z.to_nat ((stop - start + step - 1) / step)
      else Z.to_nat ((start - stop - step - 1) / (- step)) in
    Some (map (fun k => start + Z.of_nat k * step) (seq 0 count)).

(** [l[lo:hi]] for bounds that are not negative, clamped to the length of
    [l] as Python does.  The bounds a chunking loop produces are never
    negative. *)
Definition py_slice {A : Type} (l : list A) (lo hi : Z) : list A :=
  firstn (Z.to_nat (hi - lo)) (skipn (Z.to_nat lo) l).

(** [string_split]: parts of 1950 characters.  A [str] is the sequence of
    its characters; the step 1950 is not 0, so [range] cannot raise. *)
Definition string_split {Char : Type} (string : list Char) : list (list Char) :=
  match py_range 0 (Z.of_nat (List.length string)) 1950 with
  | Some starts => map (fun i => py_slice string i (i + 1950)) starts
  | None => []
  end.

(** [line_split]; [splitlines] stands for [str.splitlines], and [None] is
    the [ValueError] that [range] raises for [split_by=0]. *)
Definition line_split (splitlines : string -> list string) (content : string)
  (split_by : Z) : option (list (list string)) :=
  let content_split := splitlines content in
  match py_range 0 (Z.of_nat (List.length content_split)) split_by with
  | Some starts =>
      Some (map (fun x => py_slice content_split x (x + split_by)) starts)
  | None => None
  end.

(** ** The message [error_handle] builds *)

Definition newline : string := String (Ascii.ascii_of_nat 10) EmptyString.

(** [chunk[0] = f(chunk[0])] and [chunk[-1] = f(chunk[-1])]; [None] is the
    [IndexError] of an empty list. *)
Definition set_first (f : string -> string) (chunk : list string)
  : option (list string) :=
  match chunk with
  | [] => None
  | x :: rest => Some (f x :: rest)
  end.

Fixpoint set_last (f : string -> string) (chunk : list string)
  : option (list string) :=
  match chunk with
  | [] => None
  | [x] => Some [f x]
  | x :: rest => option_map (cons x) (set_last f rest)
  end.

(** The body of the loop over the chunks: the first line gets the opening
    fence in front, the last line the closing fence behind. *)
Definition fence (chunk : list string) : option (list string) :=
  match set_first (fun x => String.append "```py" (String.append newline x)) chunk with
  | Some chunk' =>
      set_last (fun x => String.append x (String.append newline "```")) chunk'
  | None => None
  end.

Fixpoint fence_all (chunks : list (list string)) : option (list (list string)) :=
  match chunks with
  | [] => Some []
  | c :: rest =>
      match fence c, fence_all rest with
      | Some c', Some rest' => Some (c' :: rest')
      | _, _ => None
      end
  end.

(** What is sent to the owner: plain text or an embed with a description
    ([error_embed_generate]). *)
Inductive OwnerMessage : Type :=
| PlainText (content : string)
| ErrorEmbed (description : string).

(** [error_handle], the branch for an error other than a disconnect, up to
    [to_send]: [jump_url] is [ctx.message.jump_url] where the context has
    one.  [None] stands for an exception raised on the way. *)
Definition error_messages (splitlines : string -> list string)
  (error_str : string) (jump_url : option string) : option (list OwnerMessage) :=
  match line_split splitlines error_str 40 with
  | None => None
  | Some chunks =>
      match fence_all chunks with
      | None => None
      | Some chunks' =>
          let final_chunks :=
            map (fun chunk => ErrorEmbed (String.concat newline chunk)) chunks' in
          Some (match jump_url with
                | Some url => PlainText (String.append "Error on: " url) :: final_chunks
                | None => final_chunks
                end)
      end
  end.

(** The text of one embed: the joined lines of a chunk inside a fenced
    block. *)
Definition fenced_text (chunk : list string) : string :=
  String.append "```py"
    (String.append newline
       (String.append (String.concat newline chunk)
          (String.append newline "```"))).

(** ** Channel permissions *)

(** The bits of [ipy.Permissions] the check looks at, as the platform
    defines them. *)
Definition VIEW_CHANNEL : Z := 2 ^ 10.
Definition SEND_MESSAGES : Z := 2 ^ 11.
Definition EMBED_LINKS : Z := 2 ^ 14.
Definition READ_MESSAGE_HISTORY : Z := 2 ^ 16.

(** [flag in perms] on an integer flag. *)
Definition perm_in (flag perms : Z) : bool := Z.land perms flag =? flag.

Record GuildChannel : Type := mkChannel {
  is_messageable : bool;
  channel_name : string
}.

(** [valid_channel_check]. *)
Definition valid_channel_check (channel : GuildChannel) (perms : Z)
  : Result GuildChannel :=
  let name := channel_name channel in
  if negb (is_messageable channel)
  then Err (BadArgument
              (String.append "Cannot send messages in " (String.append name ".")))
  else if perms =? 0
  then Err (BadArgument
              (String.append "Cannot resolve permissions for "
                             (String.append name ".")))
  else if negb (perm_in VIEW_CHANNEL perms)
  then Err (BadArgument
              (String.append "Cannot read messages in " (String.append name ".")))
  else if negb (perm_in READ_MESSAGE_HISTORY perms)
  then Err (BadArgument
              (String.append "Cannot read message history in "
                             (String.append name ".")))
  else if negb (perm_in SEND_MESSAGES perms)
  then Err (BadArgument
              (String.append "Cannot send messages in " (String.append name ".")))
  else if negb (perm_in EMBED_LINKS perms)
  then Err (BadArgument
              (String.append "Cannot send embeds in " (String.append name ".")))
  else Ok channel.

(** ** Embed limits *)

(** An author object carries a name and a footer object a text: on an
    embed whose author has no name or whose footer has no text
    [len(embed)] raises, so such embeds are kept out of the type. *)
Record EmbedAuthor : Type := mkEmbedAuthor { author_name : string }.
Record EmbedFooter : Type := mkEmbedFooter { footer_text : string }.
Record EmbedField : Type := mkEmbedField {
  field_name : string;
  field_value : string
}.

(** An embed as [embed_check] reads it; [embed_len] is the value of
    [len(embed)], which the library computes. *)
Record Embed : Type := mkEmbed {
  embed_len : Z;
  embed_title : option string;
  embed_description : option string;
  embed_author : option EmbedAuthor;
  embed_footer : option EmbedFooter;
  embed_fields : list EmbedField
}.

(** [x and len(x) > limit] for an optional text. *)
Definition too_long (limit : Z) (text : option string) : bool :=
  match text with
  | Some t => limit <? Z.of_nat (String.length t)
  | None => false
  end.

(** The loop over the fields, leaving at the first field over a limit. *)
Fixpoint fields_within (fields : list EmbedField) : bool :=
  match fields with
  | [] => true
  | field :: rest =>
      if too_long 1024 (Some (field_name field)) then false
      else if too_long 2048 (Some (field_value field)) then false
      else fields_within rest
  end.

(** [embed_check]. *)
Definition embed_check (embed : Embed) : bool :=
  if 6000 <? embed_len embed then false
  else if too_long 256 (embed_title embed) then false
  else if too_long 4096 (embed_description embed) then false
  else if match embed_author embed with
          | Some a => too_long 256 (Some (author_name a))
          | None => false
          end then false
  else if match embed_footer embed with
          | Some f => too_long 2048 (Some (footer_text f))
          | None => false
          end then false
  else if 25 <? Z.of_nat (List.length (embed_fields embed)) then false
  else fields_within (embed_fields embed).

(** The limits [embed_check] enforces, as a statement. *)
Definition text_within (limit : Z) (text : option string) : Prop :=
  forall t, text = Some t -> Z.of_nat (String.length t) <= limit.

Definition embed_within_limits (embed : Embed) : Prop :=
  embed_len embed <= 6000 /\
  text_within 256 (embed_title embed) /\
  text_within 4096 (embed_description embed) /\
  (forall a, embed_author embed = Some a ->
             Z.of_nat (String.length (author_name a)) <= 256) /\
  (forall f, embed_footer embed = Some f ->
             Z.of_nat (String.length (footer_text f)) <= 2048) /\
  Z.of_nat (List.length (embed_fields embed)) <= 25 /\
  Forall (fun field =>
            Z.of_nat (String.length (field_name field)) <= 1024 /\
            Z.of_nat (String.length (field_value field)) <= 2048)
         (embed_fields embed).

(** One constructor of [keeps_stock], or one case split of the handler. *)
Ltac keeps_step :=
  first
    [ apply keeps_ret
    | apply keeps_raise
    | apply keeps_vis; [exact I | intros ? ?]
    | match goal with
      | |- keeps_stock _ (if ?b then _ else _) => destruct b eqn:?
      | |- keeps_stock _ (match ?x with Some _ => _ | None => _ end) =>
          destruct x
      end ].

(** * Properties *)

(** ** Lookups *)

Lemma find_player_app (g u : Z) (l : list GachaPlayer) (p : GachaPlayer) :
  find (is_player g u) (l ++ [p]) =
  match find (is_player g u) l with
  | Some q => Some q
  | None => if is_player g u p then Some p else None
  end.
Proof.
  induction l as [|q l IH]; simpl.
  - reflexivity.
  - destruct (is_player g u q); [reflexivity | exact IH].
Qed.

Lemma is_player_same (g u g' u' : Z) (p : GachaPlayer) :
  is_player g u p = true -> is_player g' u' p = true -> g' = g /\ u' = u.
Proof.
  unfold is_player. intros H H'.
  apply andb_true_iff in H. apply andb_true_iff in H'.
  destruct H as [H1 H2], H' as [H3 H4].
  apply Z.eqb_eq in H1, H2, H3, H4. split; congruence.
Qed.

Lemma is_player_mk (g u id c : Z) : is_player g u (mkPlayer id g u c) = true.
Proof. unfold is_player. simpl. now rewrite !Z.eqb_refl. Qed.

(** A row inserted for a user who had none shows the balance they already
    had, namely [0], and disturbs nobody else's. *)
Lemma balance_of_fresh_row (g u id : Z) (s : Store) (g' u' : Z) :
  find_player g u s = None ->
  balance_of g' u'
    (mkStore (players s ++ [mkPlayer id g u 0]) (items s) (links s)) =
  balance_of g' u' s.
Proof.
  intros Hnone. unfold balance_of, find_player in *. simpl.
  rewrite find_player_app.
  destruct (find (is_player g' u') (players s)) as [q|] eqn:Hq; [reflexivity|].
  destruct (is_player g' u' (mkPlayer id g u 0)) eqn:Hp; reflexivity.
Qed.

Lemma find_player_In (g u : Z) (s : Store) (p : GachaPlayer) :
  find_player g u s = Some p -> In p (players s) /\ is_player g u p = true.
Proof. unfold find_player. intros H. apply find_some in H. exact H. Qed.

Lemma has_player_id_In (s : Store) (p : GachaPlayer) :
  In p (players s) -> has_player_id (p_id p) s = true.
Proof.
  intros H. unfold has_player_id. apply existsb_exists.
  exists p. split; [exact H | apply Z.eqb_refl].
Qed.

Lemma has_item_id_In (s : Store) (i : GachaItem) :
  In i (items s) -> has_item_id (i_id i) s = true.
Proof.
  intros H. unfold has_item_id. apply existsb_exists.
  exists i. split; [exact H | apply Z.eqb_refl].
Qed.

(** ** Lazy creation, run to completion *)

Lemma exec_create_absent (uq : bool) (g u : Z) (s : Store) :
  find_player g u s = None ->
  exec uq (PlayerCreate g u) s =
  (Ok (mkPlayer (next_id (map p_id (players s))) g u 0),
   mkStore (players s ++ [mkPlayer (next_id (map p_id (players s))) g u 0])
           (items s) (links s)).
Proof. intros H. simpl. rewrite H. now destruct uq. Qed.

Lemma run_get_or_create (uq : bool) (g u : Z) (k : GachaPlayer -> Prog Reply)
  (s : Store) :
  run uq (get_or_create g u k) s =
  run uq (k (fst (ensure_player g u s))) (snd (ensure_player g u s)).
Proof.
  unfold get_or_create, ensure_player.
  cbn [run exec].
  destruct (find_player g u s) as [p|] eqn:Hf; [reflexivity|].
  cbn [run]. rewrite (exec_create_absent uq g u s Hf). reflexivity.
Qed.

Lemma ensure_player_spec (g u : Z) (s : Store) :
  let p := fst (ensure_player g u s) in
  let s' := snd (ensure_player g u s) in
  In p (players s') /\ is_player g u p = true /\
  currency_amount p = balance_of g u s /\
  items s' = items s /\ links s' = links s /\
  (forall g' u', balance_of g' u' s' = balance_of g' u' s) /\
  (players s' = players s \/
   find_player g u s = None /\
   players s' = players s ++ [mkPlayer (next_id (map p_id (players s))) g u 0]).
Proof.
  unfold ensure_player, balance_of.
  destruct (find_player g u s) as [p|] eqn:Hf; simpl.
  - apply find_player_In in Hf as [Hin Hp].
    repeat split; auto.
  - repeat split; auto.
    + apply in_or_app. right. now left.
    + apply is_player_mk.
    + intros g' u'. apply (balance_of_fresh_row g u _ s g' u' Hf).
Qed.

(** ** Draw: the balance check *)

(** C7. A draw by a caller whose balance is below [currency_cost] (the
    feature enabled and the caller holding the player role, so that the
    balance check is reached) fails with the insufficient-funds error, and
    leaves every item, every ownership row, every existing player row and
    every balance as it was; the only trace it can leave is the caller's
    lazily created zero-balance row. *)
Theorem draw_insufficient_funds (uq : bool) (randint : Z -> Z -> Z)
  (ctx : Context) (config : Config) (s : Store) :
  role_set config = true ->
  gacha_enabled config = true ->
  has_role (author ctx) (player_role config) = true ->
  balance_of (guild_id ctx) (m_id (author ctx)) s < gacha_currency_cost config ->
  exists s',
    run uq (gacha_draw randint ctx config) s = (Err insufficient_funds_draw, s') /\
    items s' = items s /\
    links s' = links s /\
    (forall g u, balance_of g u s' = balance_of g u s) /\
    (players s' = players s \/
     find_player (guild_id ctx) (m_id (author ctx)) s = None /\
     players s' = players s ++
       [mkPlayer (next_id (map p_id (players s)))
                 (guild_id ctx) (m_id (author ctx)) 0]).
Proof.
  intros Hrole Hon Hhas Hlow.
  unfold gacha_draw. rewrite Hrole, Hon, Hhas. cbn [negb orb].
  rewrite run_get_or_create.
  destruct (ensure_player_spec (guild_id ctx) (m_id (author ctx)) s)
    as (_ & _ & Hbal & Hitems & Hlinks & Hsame & Hrows).
  exists (snd (ensure_player (guild_id ctx) (m_id (author ctx)) s)).
  rewrite Hbal.
  assert (Hlt : (balance_of (guild_id ctx) (m_id (author ctx)) s
                 <? gacha_currency_cost config) = true)
    by (apply Z.ltb_lt; exact Hlow).
  rewrite Hlt. cbn [run].
  repeat split; assumption.
Qed.

Lemma draw_insufficient_funds_witness :
  exists s',
    run false (gacha_draw Sample.lowest Sample.as_carol Sample.config)
        Sample.store = (Err insufficient_funds_draw, s') /\
    items s' = items Sample.store /\
    links s' = links Sample.store /\
    (forall g u, balance_of g u s' = balance_of g u Sample.store) /\
    (players s' = players Sample.store \/
     find_player 100 3 Sample.store = None /\
     players s' = players Sample.store ++ [mkPlayer 3 100 3 0]).
Proof.
  apply (draw_insufficient_funds false Sample.lowest Sample.as_carol
           Sample.config Sample.store);
    [reflexivity | reflexivity | reflexivity | vm_compute; reflexivity].
Defined.

(** ** Profile *)

(** C10. For a caller with no player row (the feature enabled), the profile
    command fails with "You have no data for gacha." and touches nothing
    when the caller lacks the player role; when the caller holds it, a
    fresh row with balance 0 is inserted for them and shown. *)
Theorem profile_without_record (uq : bool) (ctx : Context) (config : Config)
  (s : Store) :
  role_set config = true ->
  gacha_enabled config = true ->
  find_player (guild_id ctx) (m_id (author ctx)) s = None ->
  (has_role (author ctx) (player_role config) = false ->
     run uq (gacha_profile ctx config) s = (Err no_data, s)) /\
  (has_role (author ctx) (player_role config) = true ->
     exists p,
       run uq (gacha_profile ctx config) s =
         (Ok (ProfileEmbeds p),
          mkStore (players s ++ [p]) (items s) (links s)) /\
       currency_amount p = 0 /\
       p_guild_id p = guild_id ctx /\
       p_user_id p = m_id (author ctx) /\
       p_id p = next_id (map p_id (players s))).
Proof.
  intros Hrole Hon Hnone.
  unfold gacha_profile. rewrite Hrole, Hon. cbn [negb orb run exec].
  rewrite Hnone.
  split; intros Hhas; rewrite Hhas; cbn [negb run].
  - reflexivity.
  - rewrite (exec_create_absent uq _ _ s Hnone).
    eexists. split; [reflexivity|]. simpl. auto.
Qed.

Lemma profile_without_record_witness :
  run false (gacha_profile Sample.as_dave Sample.config) Sample.store
    = (Err no_data, Sample.store) /\
  exists p,
    run false (gacha_profile Sample.as_carol Sample.config) Sample.store =
      (Ok (ProfileEmbeds p),
       mkStore (players Sample.store ++ [p]) (items Sample.store)
               (links Sample.store)) /\
    currency_amount p = 0 /\
    p_guild_id p = 100 /\ p_user_id p = 3 /\ p_id p = 3.
Proof.
  split.
  - apply (profile_without_record false Sample.as_dave Sample.config
             Sample.store); reflexivity.
  - apply (profile_without_record false Sample.as_carol Sample.config
             Sample.store); reflexivity.
Defined.

(** ** Reads *)

(** C6, as the claim states it, fails: the profile command of a role holder
    without a row inserts one. *)
Lemma profile_is_not_read_only :
  snd (run false (gacha_profile Sample.as_carol Sample.config) Sample.store)
    <> Sample.store.
Proof. vm_compute. discriminate. Qed.

(** C6, amended. The view-item command leaves the store as it was for
    every input.  The profile command never changes an item, an ownership
    row or an existing player row; it changes the store only for a caller
    who has no player row and holds the player role in an enabled guild,
    by inserting that caller's fresh zero-balance row. *)
Theorem reads_change_only_lazy_row :
  (forall uq ctx name s,
     snd (run uq (gacha_user_view_item ctx name) s) = s) /\
  (forall uq ctx config s,
     let s' := snd (run uq (gacha_profile ctx config) s) in
     items s' = items s /\
     links s' = links s /\
     (s' = s \/
      find_player (guild_id ctx) (m_id (author ctx)) s = None /\
      has_role (author ctx) (player_role config) = true /\
      role_set config = true /\ gacha_enabled config = true /\
      players s' = players s ++
        [mkPlayer (next_id (map p_id (players s)))
                  (guild_id ctx) (m_id (author ctx)) 0])).
Proof.
  split.
  - intros uq ctx name s. unfold gacha_user_view_item. cbn [run exec].
    destruct (find _ (items s)); reflexivity.
  - intros uq ctx config s. unfold gacha_profile.
    destruct (role_set config) eqn:Hrole;
      destruct (gacha_enabled config) eqn:Hon; cbn [negb orb run exec];
      try (simpl; auto; fail).
    destruct (find_player (guild_id ctx) (m_id (author ctx)) s) as [p|] eqn:Hf;
      cbn [run]; [simpl; auto|].
    destruct (has_role (author ctx) (player_role config)) eqn:Hhas;
      cbn [negb run]; [|simpl; auto].
    rewrite (exec_create_absent uq _ _ s Hf). cbn [run snd].
    simpl. repeat split; auto. right. repeat split; auto.
Qed.

(** ** Saving a row *)

Lemma overwrite_keeps_id (q p : GachaPlayer) : p_id (overwrite q p) = p_id p.
Proof.
  unfold overwrite. destruct (p_id p =? p_id q) eqn:E; [|reflexivity].
  apply Z.eqb_eq in E. symmetry. exact E.
Qed.

Lemma overwrite_keeps_ids (q : GachaPlayer) (l : list GachaPlayer) :
  map p_id (map (overwrite q) l) = map p_id l.
Proof.
  rewrite map_map. apply map_ext. intros p. apply overwrite_keeps_id.
Qed.

Lemma has_player_id_ids (id : Z) (s s' : Store) :
  map p_id (players s') = map p_id (players s) ->
  has_player_id id s' = has_player_id id s.
Proof.
  unfold has_player_id. intros H.
  assert (E : forall l, existsb (fun p => p_id p =? id) l
                        = existsb (fun k => k =? id) (map p_id l)).
  { induction l as [|p l IH]; simpl; [reflexivity | now rewrite IH]. }
  rewrite !E, H. reflexivity.
Qed.

Lemma exec_save_present (uq : bool) (p : GachaPlayer) (s : Store) :
  has_player_id (p_id p) s = true ->
  exec uq (PlayerSave p) s =
  (Ok tt, mkStore (map (overwrite p) (players s)) (items s) (links s)).
Proof. intros H. simpl. rewrite H. reflexivity. Qed.

Lemma run_give_commit (uq : bool) (amount : Z) (p rp : GachaPlayer) (s : Store) :
  In p (players s) -> In rp (players s) ->
  run uq (give_commit amount p rp) s =
  (Ok (GaveCurrency amount), debited amount p (credited amount rp s)).
Proof.
  intros Hp Hrp. unfold give_commit. cbn [run].
  rewrite exec_save_present by (unfold with_currency; simpl; apply has_player_id_In; exact Hrp).
  cbn [run].
  rewrite exec_save_present.
  - reflexivity.
  - unfold with_currency at 1. simpl p_id.
    rewrite (has_player_id_ids (p_id p) s).
    + apply has_player_id_In; exact Hp.
    + simpl. apply overwrite_keeps_ids.
Qed.

Lemma find_map_same {A : Type} (P : A -> bool) (f : A -> A) (l : list A) :
  (forall x, In x l -> P (f x) = P x) ->
  find P (map f l) = option_map f (find P l).
Proof.
  induction l as [|a l IH]; intros H; simpl; [reflexivity|].
  rewrite (H a (or_introl eq_refl)).
  destruct (P a); [reflexivity|].
  apply IH. intros x Hx. apply H. now right.
Qed.

Lemma unique_key_row (l : list GachaPlayer) (x y : GachaPlayer) :
  NoDup (map p_id l) -> In x l -> In y l -> p_id x = p_id y -> x = y.
Proof.
  induction l as [|a l IH]; simpl; intros Hnd Hx Hy E; [contradiction|].
  inversion Hnd as [|? ? Hnotin Hnd']; subst.
  destruct Hx as [Hx|Hx], Hy as [Hy|Hy]; subst.
  - reflexivity.
  - exfalso. apply Hnotin. rewrite E. now apply in_map.
  - exfalso. apply Hnotin. rewrite <- E. now apply in_map.
  - now apply IH.
Qed.

(** Saving [q] with a new balance changes [q]'s row and no other lookup. *)
Lemma find_player_after_save (g u c : Z) (q : GachaPlayer) (s : Store) :
  player_keys_unique s -> In q (players s) ->
  find (is_player g u) (map (overwrite (with_currency q c)) (players s)) =
  option_map (fun r => if p_id r =? p_id q then with_currency q c else r)
             (find_player g u s).
Proof.
  intros Hnd Hq. unfold find_player.
  rewrite find_map_same.
  - reflexivity.
  - intros x Hx. unfold overwrite. simpl p_id.
    destruct (p_id x =? p_id q) eqn:E; [|reflexivity].
    apply Z.eqb_eq in E.
    rewrite (unique_key_row _ x q Hnd Hx Hq E). reflexivity.
Qed.

(** ** Give-currency: failures *)

Lemma run_give_from_failure (uq : bool) (ctx : Context) (config : Config)
  (recipient : Member) (amount : Z) (p : GachaPlayer) (s s' : Store) (e : Error) :
  In p (players s) ->
  run uq (give_from ctx config recipient amount p) s = (Err e, s') ->
  s' = s.
Proof.
  intros Hp. unfold give_from.
  destruct (currency_amount p <? amount); cbn [run exec].
  { intros H. now inversion H. }
  destruct (find_player (guild_id ctx) (m_id recipient) s) as [rp|] eqn:Hf.
  { apply find_player_In in Hf as [Hrp _].
    rewrite (run_give_commit uq amount p rp s Hp Hrp). discriminate. }
  destruct (has_role recipient (player_role config)); cbn [negb run].
  2:{ intros H. now inversion H. }
  destruct (exec uq (PlayerCreate (guild_id ctx) (m_id (author ctx))) s)
    as [[rp|e'] s1] eqn:Hc.
  - simpl in Hc.
    assert (Hs1 : s1 = mkStore (players s ++ [rp]) (items s) (links s)).
    { destruct uq, (find_player (guild_id ctx) (m_id (author ctx)) s);
        inversion Hc; reflexivity. }
    subst s1. rewrite run_give_commit.
    + discriminate.
    + simpl. apply in_or_app. now left.
    + simpl. apply in_or_app. right. now left.
  - simpl in Hc. intros H. inversion H; subst.
    destruct uq, (find_player (guild_id ctx) (m_id (author ctx)) s);
      inversion Hc; reflexivity.
Qed.

Lemma run_give_failure (uq : bool) (ctx : Context) (config : Config)
  (recipient : Member) (amount : Z) (s s' : Store) (e : Error) :
  run uq (gacha_give_currency ctx config recipient amount) s = (Err e, s') ->
  items s' = items s /\ links s' = links s /\
  forall g u, balance_of g u s' = balance_of g u s.
Proof.
  unfold gacha_give_currency.
  destruct (negb (role_set config) || negb (gacha_enabled config)); cbn [run exec].
  { intros H. inversion H. auto. }
  destruct (find_player (guild_id ctx) (m_id (author ctx)) s) as [p|] eqn:Hf.
  { intros H. apply find_player_In in Hf as [Hp _].
    apply run_give_from_failure in H; [subst; auto | exact Hp]. }
  destruct (has_role (author ctx) (player_role config)); cbn [negb run].
  2:{ intros H. inversion H. auto. }
  rewrite (exec_create_absent uq _ _ s Hf).
  intros H. apply run_give_from_failure in H.
  - subst s'. simpl. repeat split; auto.
    intros g u. apply (balance_of_fresh_row _ _ _ s g u Hf).
  - simpl. apply in_or_app. right. now left.
Qed.

(** ** Give-currency to oneself *)

(** C5, as the claim states it, fails: Alice giving 5 to herself is carried
    out, and her balance changes. *)
Lemma self_transfer_is_accepted :
  run true (gacha_give_currency Sample.as_alice Sample.config
              Sample.alice 5) Sample.store
  = (Ok (GaveCurrency 5),
     mkStore [mkPlayer 1 100 1 20; mkPlayer 2 100 2 10]
             (items Sample.store) (links Sample.store)) /\
  balance_of 100 1 Sample.store = 25 /\
  balance_of 100 1
    (snd (run true (gacha_give_currency Sample.as_alice Sample.config
                      Sample.alice 5) Sample.store)) = 20.
Proof. vm_compute. repeat split. Qed.

(** C5, amended. The handler does not compare sender and recipient, and
    the bounds on the amount come from the option declaration.  A transfer
    whose recipient is its author is rejected exactly like any other: a
    rejected transfer leaves every balance, item and ownership row as it
    was, and a self-transfer that passes the checks (feature enabled, amount
    within 1..999, sender's row present with a balance of at least the
    amount) is not rejected. *)
Theorem self_transfer_amended (uq : bool) (ctx : Context) (config : Config)
  (recipient : Member) (amount : Z) (s : Store) :
  (forall e s',
     run uq (gacha_give_currency ctx config recipient amount) s = (Err e, s') ->
     items s' = items s /\ links s' = links s /\
     forall g u, balance_of g u s' = balance_of g u s) /\
  (forall p,
     m_id recipient = m_id (author ctx) ->
     role_set config = true ->
     gacha_enabled config = true ->
     1 <= amount <= 999 ->
     find_player (guild_id ctx) (m_id (author ctx)) s = Some p ->
     amount <= currency_amount p ->
     exists s',
       run uq (gacha_give_currency ctx config recipient amount) s
         = (Ok (GaveCurrency amount), s')).
Proof.
  split.
  - intros e s'. apply run_give_failure.
  - intros p Hself Hrole Hon Hamt Hf Hbal.
    unfold gacha_give_currency. rewrite Hrole, Hon. cbn [negb orb run exec].
    rewrite Hf. unfold give_from.
    assert (Hge : (currency_amount p <? amount) = false)
      by (apply Z.ltb_ge; exact Hbal).
    rewrite Hge. cbn [run exec]. rewrite Hself, Hf.
    apply find_player_In in Hf as [Hp _].
    rewrite (run_give_commit uq amount p p s Hp Hp).
    eexists. reflexivity.
Qed.

Lemma self_transfer_amended_witness :
  (forall e s',
     run true (gacha_give_currency Sample.as_alice Sample.config
                 Sample.alice 30) Sample.store = (Err e, s') ->
     items s' = items Sample.store /\ links s' = links Sample.store /\
     forall g u, balance_of g u s' = balance_of g u Sample.store) /\
  exists s',
    run true (gacha_give_currency Sample.as_alice Sample.config
                Sample.alice 5) Sample.store = (Ok (GaveCurrency 5), s').
Proof.
  split.
  - apply (self_transfer_amended true Sample.as_alice Sample.config
             Sample.alice 30 Sample.store).
  - apply (proj2 (self_transfer_amended true Sample.as_alice Sample.config
                    Sample.alice 5 Sample.store)
             (mkPlayer 1 100 1 25));
      first [reflexivity | lia | (vm_compute; discriminate)].
Defined.

(** ** Give-currency to a recipient without a row *)

Lemma find_overwrite_none (P : GachaPlayer -> bool) (q : GachaPlayer)
  (l : list GachaPlayer) :
  P q = false -> find P l = None -> find P (map (overwrite q) l) = None.
Proof.
  intros Hq. induction l as [|a l IH]; simpl; [reflexivity|].
  destruct (P a) eqn:Ha; [discriminate|]. intros Hl.
  unfold overwrite at 1. destruct (p_id a =? p_id q).
  - rewrite Hq. now apply IH.
  - rewrite Ha. now apply IH.
Qed.

Lemma is_player_with_currency (g u c : Z) (p : GachaPlayer) :
  is_player g u (with_currency p c) = is_player g u p.
Proof. reflexivity. Qed.

Lemma is_player_alike (g u g' u' id c : Z) (p : GachaPlayer) :
  is_player g u p = true ->
  is_player g' u' (mkPlayer id g u c) = is_player g' u' p.
Proof.
  unfold is_player. simpl. intros H.
  apply andb_true_iff in H as [H1 H2].
  apply Z.eqb_eq in H1, H2. now rewrite H1, H2.
Qed.

Lemma next_id_above (l : list Z) (x : Z) : In x l -> x < next_id l.
Proof.
  unfold next_id. intros H.
  assert (Hle : x <= fold_right Z.max 0 l).
  { induction l as [|a l IH]; [contradiction|].
    cbn [fold_right]. destruct H as [H|H].
    - subst. apply Z.le_max_l.
    - specialize (IH H). pose proof (Z.le_max_r a (fold_right Z.max 0 l)). lia. }
  lia.
Qed.

(** C1 at the failing input: the sender has a row and enough currency, the
    recipient holds the player role and has no row.  The row the handler
    creates for the recipient is keyed by the sender's user id.  Where the
    pair (guild, user) is unique the insertion is refused and the transfer
    fails; where it is not, the transfer reports success, the credit sits in
    a second row of the sender, and the recipient still has no row, so the
    recipient's balance has not moved. *)
Theorem give_to_new_recipient (ctx : Context) (config : Config)
  (recipient : Member) (amount : Z) (s : Store) (p : GachaPlayer) :
  role_set config = true ->
  gacha_enabled config = true ->
  1 <= amount <= 999 ->
  find_player (guild_id ctx) (m_id (author ctx)) s = Some p ->
  amount <= currency_amount p ->
  find_player (guild_id ctx) (m_id recipient) s = None ->
  has_role recipient (player_role config) = true ->
  run true (gacha_give_currency ctx config recipient amount) s
    = (Err UniqueViolationError, s) /\
  exists s',
    run false (gacha_give_currency ctx config recipient amount) s
      = (Ok (GaveCurrency amount), s') /\
    find_player (guild_id ctx) (m_id recipient) s' = None /\
    balance_of (guild_id ctx) (m_id recipient) s'
      = balance_of (guild_id ctx) (m_id recipient) s /\
    In (mkPlayer (next_id (map p_id (players s)))
                 (guild_id ctx) (m_id (author ctx)) amount) (players s').
Proof.
  intros Hrole Hon Hamt Hf Hbal Hnone Hhas.
  assert (Hge : (currency_amount p <? amount) = false)
    by (apply Z.ltb_ge; exact Hbal).
  assert (Hpass : forall uq,
            run uq (gacha_give_currency ctx config recipient amount) s =
            run uq (recipient_player <-
                      PlayerCreate (guild_id ctx) (m_id (author ctx)) ;;
                    give_commit amount p recipient_player) s).
  { intros uq.
    remember (run uq (recipient_player <-
                        PlayerCreate (guild_id ctx) (m_id (author ctx)) ;;
                      give_commit amount p recipient_player) s) as rhs eqn:Hr.
    unfold gacha_give_currency. rewrite Hrole, Hon. cbn [negb orb run exec].
    rewrite Hf. unfold give_from. rewrite Hge. cbn [run exec].
    rewrite Hnone, Hhas. subst rhs. reflexivity. }
  pose proof (find_player_In _ _ _ _ Hf) as [Hp Hisp].
  assert (Hnotp : is_player (guild_id ctx) (m_id recipient) p = false).
  { unfold find_player in Hnone. exact (find_none _ _ Hnone p Hp). }
  split.
  - rewrite Hpass. cbn [run exec]. rewrite Hf. reflexivity.
  - rewrite Hpass. cbn [run exec].
    set (rp := mkPlayer (next_id (map p_id (players s)))
                        (guild_id ctx) (m_id (author ctx)) 0).
    rewrite run_give_commit;
      [| simpl; apply in_or_app; now left
       | simpl; apply in_or_app; right; now left].
    eexists. split; [reflexivity|].
    assert (Hgone : find_player (guild_id ctx) (m_id recipient)
              (debited amount p (credited amount rp
                 (mkStore (players s ++ [rp]) (items s) (links s)))) = None).
    { unfold find_player, debited, credited. simpl players.
      apply find_overwrite_none.
      { rewrite is_player_with_currency. exact Hnotp. }
      apply find_overwrite_none.
      { rewrite is_player_with_currency. unfold rp.
        rewrite (is_player_alike _ _ _ _ _ _ p Hisp). exact Hnotp. }
      rewrite find_player_app. unfold find_player in Hnone. rewrite Hnone.
      unfold rp. rewrite (is_player_alike _ _ _ _ _ _ p Hisp), Hnotp.
      reflexivity. }
    split; [exact Hgone|]. split.
    + unfold balance_of. rewrite Hgone, Hnone. reflexivity.
    + unfold debited, credited. simpl players.
      rewrite !map_app. apply in_or_app. right. simpl. left.
      unfold overwrite, with_currency, rp. simpl.
      rewrite Z.eqb_refl. simpl.
      assert (Hne : (next_id (map p_id (players s)) =? p_id p) = false).
      { apply Z.eqb_neq.
        pose proof (next_id_above (map p_id (players s)) (p_id p)
                      (in_map p_id _ _ Hp)). lia. }
      rewrite Hne. reflexivity.
Qed.

Lemma give_to_new_recipient_witness :
  run true (gacha_give_currency Sample.as_alice Sample.config Sample.carol 5)
      Sample.store = (Err UniqueViolationError, Sample.store) /\
  exists s',
    run false (gacha_give_currency Sample.as_alice Sample.config
                 Sample.carol 5) Sample.store = (Ok (GaveCurrency 5), s') /\
    find_player 100 3 s' = None /\
    balance_of 100 3 s' = balance_of 100 3 Sample.store /\
    In (mkPlayer 3 100 1 5) (players s').
Proof.
  apply (give_to_new_recipient Sample.as_alice Sample.config Sample.carol 5
           Sample.store (mkPlayer 1 100 1 25));
    first [reflexivity | lia | (vm_compute; discriminate)].
Defined.

(** ** Give-currency between two existing rows *)

Lemma distinct_users_distinct_keys (g ua ur : Z) (s : Store) (p q : GachaPlayer) :
  player_keys_unique s ->
  find_player g ua s = Some p -> find_player g ur s = Some q -> ur <> ua ->
  (p_id p =? p_id q) = false.
Proof.
  intros Hnd Hp Hq Hne.
  apply find_player_In in Hp as [Hp Hisp].
  apply find_player_In in Hq as [Hq Hisq].
  apply Z.eqb_neq. intros E.
  pose proof (unique_key_row _ p q Hnd Hp Hq E). subst q.
  destruct (is_player_same _ _ _ _ _ Hisp Hisq) as [_ ?]. contradiction.
Qed.

Lemma transfer_lookups (g ua ur a : Z) (s : Store) (p q : GachaPlayer) :
  player_keys_unique s ->
  find_player g ua s = Some p -> find_player g ur s = Some q -> ur <> ua ->
  find_player g ua (credited a q s) = Some p /\
  find_player g ur (credited a q s)
    = Some (with_currency q (currency_amount q + a)) /\
  find_player g ua (debited a p (credited a q s))
    = Some (with_currency p (currency_amount p - a)) /\
  find_player g ur (debited a p (credited a q s))
    = Some (with_currency q (currency_amount q + a)).
Proof.
  intros Hnd Hp Hq Hne.
  pose proof (distinct_users_distinct_keys g ua ur s p q Hnd Hp Hq Hne) as Hpq.
  pose proof (find_player_In _ _ _ _ Hp) as [Hinp _].
  pose proof (find_player_In _ _ _ _ Hq) as [Hinq _].
  assert (Ha1 : find_player g ua (credited a q s) = Some p).
  { unfold find_player at 1, credited. simpl players.
    rewrite (find_player_after_save g ua _ q s Hnd Hinq), Hp. simpl.
    now rewrite Hpq. }
  assert (Hr1 : find_player g ur (credited a q s)
                = Some (with_currency q (currency_amount q + a))).
  { unfold find_player at 1, credited. simpl players.
    rewrite (find_player_after_save g ur _ q s Hnd Hinq), Hq. simpl.
    now rewrite Z.eqb_refl. }
  assert (Hnd1 : player_keys_unique (credited a q s)).
  { unfold player_keys_unique, credited. simpl players.
    rewrite overwrite_keeps_ids. exact Hnd. }
  pose proof (find_player_In _ _ _ _ Ha1) as [Hinp1 _].
  repeat split; try assumption.
  - unfold find_player at 1, debited. simpl players.
    rewrite (find_player_after_save g ua _ p _ Hnd1 Hinp1), Ha1. simpl.
    now rewrite Z.eqb_refl.
  - unfold find_player at 1, debited. simpl players.
    rewrite (find_player_after_save g ur _ p _ Hnd1 Hinp1), Hr1. simpl.
    rewrite Z.eqb_sym, Hpq. reflexivity.
Qed.

Lemma steps_front {A : Type} (uq : bool) (n : nat) (p : Prog A) (s : Store) :
  steps uq (S n) p s = steps uq n (fst (step uq p s)) (snd (step uq p s)).
Proof.
  unfold steps. rewrite Nat.iter_succ_r. simpl fst. simpl snd.
  destruct (step uq p s). reflexivity.
Qed.

Lemma steps_ret {A : Type} (uq : bool) (n : nat) (a : A) (s : Store) :
  steps uq n (Ret a) s = (Ret a, s).
Proof.
  induction n as [|n IH]; [reflexivity|].
  rewrite steps_front. simpl. exact IH.
Qed.

(** C3 at the failing input: Alice gives 5 to Bob while Bob asks for his
    profile.  The draw commits its writes in one batch; the transfer issues
    two separate saves.  Between them Bob's profile command reads his row
    already credited while Alice's row is not yet debited, and the store
    holds 25 units where there were 20. *)
Theorem half_done_transfer_is_observable :
  let transfer :=
    gacha_give_currency Sample.as_alice Sample.config Sample.bob 5 in
  let reader := gacha_profile Sample.as_bob Sample.config in
  let w := interleave true [0; 0; 0; 1]%nat
             ([transfer; reader], Sample.last_unit) in
  nth_error (fst w) 0
    = Some (PlayerSave (mkPlayer 1 100 1 5) ;;; Ret (GaveCurrency 5)) /\
  nth_error (fst w) 1 = Some (Ret (ProfileEmbeds (mkPlayer 2 100 2 15))) /\
  balance_of 100 1 (snd w) = 10 /\
  balance_of 100 2 (snd w) = 15 /\
  total_currency Sample.last_unit = 20 /\
  total_currency (snd w) = 25.
Proof. vm_compute. repeat split. Qed.

(** X5. The shape of the transfer's commit in general.  A transfer between
    two existing rows of different users writes the recipient's credit
    first and the sender's debit second.  Run on its own it passes through
    exactly three balance states: both untouched (up to the second query),
    recipient credited with sender not yet debited (after the third), both
    applied (from the fourth on, where the handler has returned). *)
Lemma transfer_commits_in_two_writes (uq : bool) (ctx : Context)
  (config : Config) (recipient : Member) (amount : Z) (s : Store)
  (p q : GachaPlayer) :
  role_set config = true ->
  gacha_enabled config = true ->
  1 <= amount <= 999 ->
  player_keys_unique s ->
  find_player (guild_id ctx) (m_id (author ctx)) s = Some p ->
  find_player (guild_id ctx) (m_id recipient) s = Some q ->
  m_id recipient <> m_id (author ctx) ->
  amount <= currency_amount p ->
  let prog := gacha_give_currency ctx config recipient amount in
  let sender n :=
    balance_of (guild_id ctx) (m_id (author ctx)) (snd (steps uq n prog s)) in
  let receiver n :=
    balance_of (guild_id ctx) (m_id recipient) (snd (steps uq n prog s)) in
  (forall n, (n <= 2)%nat ->
     sender n = currency_amount p /\ receiver n = currency_amount q) /\
  (sender 3%nat = currency_amount p /\
   receiver 3%nat = currency_amount q + amount /\
   exists k, fst (steps uq 3 prog s)
             = Vis (PlayerSave (with_currency p (currency_amount p - amount))) k) /\
  (forall n, (4 <= n)%nat ->
     fst (steps uq n prog s) = Ret (GaveCurrency amount) /\
     sender n = currency_amount p - amount /\
     receiver n = currency_amount q + amount).
Proof.
  intros Hrole Hon Hamt Hnd Hp Hq Hne Hbal prog sender receiver.
  destruct (transfer_lookups _ _ _ amount s p q Hnd Hp Hq Hne)
    as (Ha1 & Hr1 & Ha2 & Hr2).
  pose proof (find_player_In _ _ _ _ Hp) as [Hinp _].
  pose proof (find_player_In _ _ _ _ Hq) as [Hinq _].
  pose proof (find_player_In _ _ _ _ Ha1) as [Hinp1 _].
  assert (Hge : (currency_amount p <? amount) = false)
    by (apply Z.ltb_ge; exact Hbal).
  assert (H1 : step uq prog s
               = (give_from ctx config recipient amount p, s)).
  { unfold prog.
    unfold gacha_give_currency.
    rewrite Hrole, Hon. cbn [negb orb step exec]. rewrite Hp. reflexivity. }
  assert (H2 : step uq (give_from ctx config recipient amount p) s
               = (give_commit amount p q, s)).
  { unfold give_from. rewrite Hge. cbn [step exec]. rewrite Hq. reflexivity. }
  assert (H3 : step uq (give_commit amount p q) s
               = (PlayerSave (with_currency p (currency_amount p - amount)) ;;;
                  Ret (GaveCurrency amount), credited amount q s)).
  { unfold give_commit. cbn [step].
    rewrite exec_save_present
      by (unfold with_currency; simpl; apply has_player_id_In; exact Hinq).
    reflexivity. }
  assert (H4 : step uq
                 (PlayerSave (with_currency p (currency_amount p - amount)) ;;;
                  Ret (GaveCurrency amount)) (credited amount q s)
               = (Ret (GaveCurrency amount),
                  debited amount p (credited amount q s))).
  { cbn [step].
    rewrite exec_save_present
      by (unfold with_currency; simpl; apply has_player_id_In; exact Hinp1).
    reflexivity. }
  assert (S0 : steps uq 0 prog s = (prog, s)) by reflexivity.
  assert (S1 : steps uq 1 prog s
               = (give_from ctx config recipient amount p, s)).
  { rewrite steps_front, H1. reflexivity. }
  assert (S2 : steps uq 2 prog s = (give_commit amount p q, s)).
  { rewrite steps_front, H1. simpl fst. simpl snd.
    rewrite steps_front, H2. reflexivity. }
  assert (S3 : steps uq 3 prog s
               = (PlayerSave (with_currency p (currency_amount p - amount)) ;;;
                  Ret (GaveCurrency amount), credited amount q s)).
  { rewrite steps_front, H1. simpl fst. simpl snd.
    rewrite steps_front, H2. simpl fst. simpl snd.
    rewrite steps_front, H3. reflexivity. }
  assert (S4 : forall n, steps uq (4 + n) prog s
               = (Ret (GaveCurrency amount),
                  debited amount p (credited amount q s))).
  { intros n. change (4 + n)%nat with (S (S (S (S n)))).
    rewrite steps_front, H1. simpl fst. simpl snd.
    rewrite steps_front, H2. simpl fst. simpl snd.
    rewrite steps_front, H3. simpl fst. simpl snd.
    rewrite steps_front, H4. simpl fst. simpl snd.
    apply steps_ret. }
  unfold sender, receiver, balance_of.
  split; [|split].
  - intros n Hn.
    assert (Hs : snd (steps uq n prog s) = s).
    { destruct n as [|[|[|n]]]; [now rewrite S0 | now rewrite S1
                                | now rewrite S2 | lia]. }
    rewrite Hs, Hp, Hq. split; reflexivity.
  - rewrite S3. simpl snd. rewrite Ha1, Hr1. simpl.
    repeat split. eexists. reflexivity.
  - intros n Hn. replace n with (4 + (n - 4))%nat by lia.
    rewrite S4. simpl snd. simpl fst. rewrite Ha2, Hr2. simpl.
    repeat split.
Qed.

Lemma transfer_commits_in_two_writes_sample :
  let prog :=
    gacha_give_currency Sample.as_alice Sample.config Sample.bob 5 in
  let sender n := balance_of 100 1 (snd (steps true n prog Sample.last_unit)) in
  let receiver n := balance_of 100 2 (snd (steps true n prog Sample.last_unit)) in
  (forall n, (n <= 2)%nat -> sender n = 10 /\ receiver n = 10) /\
  (sender 3%nat = 10 /\ receiver 3%nat = 10 + 5 /\
   exists k, fst (steps true 3 prog Sample.last_unit)
             = Vis (PlayerSave (with_currency (mkPlayer 1 100 1 10) (10 - 5))) k) /\
  (forall n, (4 <= n)%nat ->
     fst (steps true n prog Sample.last_unit) = Ret (GaveCurrency 5) /\
     sender n = 10 - 5 /\ receiver n = 10 + 5).
Proof.
  apply (transfer_commits_in_two_writes true Sample.as_alice Sample.config
           Sample.bob 5 Sample.last_unit
           (mkPlayer 1 100 1 10) (mkPlayer 2 100 2 10));
    first [ reflexivity | lia | discriminate
          | (vm_compute; discriminate)
          | (unfold player_keys_unique; simpl; repeat constructor; simpl;
             intuition discriminate) ].
Defined.

(** The sum of the balances after one row is saved with a new balance. *)
Lemma total_after_save (c : Z) (q : GachaPlayer) (l : list GachaPlayer) :
  NoDup (map p_id l) -> In q l ->
  fold_right (fun p acc => currency_amount p + acc) 0
    (map (overwrite (with_currency q c)) l)
  = fold_right (fun p acc => currency_amount p + acc) 0 l
    - currency_amount q + c.
Proof.
  induction l as [|a l IH]; simpl; intros Hnd Hq; [contradiction|].
  inversion Hnd as [|? ? Hnotin Hnd']; subst.
  destruct Hq as [Hq|Hq].
  - subst a. unfold overwrite at 1. simpl p_id. rewrite Z.eqb_refl. simpl.
    assert (Hrest : map (overwrite (with_currency q c)) l = l).
    { clear IH Hnd Hnd'. induction l as [|b l IHl]; simpl; [reflexivity|].
      unfold overwrite at 1. simpl p_id.
      destruct (p_id b =? p_id q) eqn:E.
      - apply Z.eqb_eq in E. exfalso. apply Hnotin. left. exact E.
      - f_equal. apply IHl. intros Hin. apply Hnotin. now right. }
    rewrite Hrest. lia.
  - unfold overwrite at 1. simpl p_id.
    destruct (p_id a =? p_id q) eqn:E.
    + apply Z.eqb_eq in E. exfalso. apply Hnotin. rewrite E. now apply in_map.
    + rewrite (IH Hnd' Hq). lia.
Qed.

(** ** Give-currency: the declared amount bounds *)





(** X4. Where both rows exist and belong to different users, a transfer
    the sender can pay for, run on its own, succeeds and moves exactly
    [amount]: the sender's balance goes down by it, the recipient's goes up
    by it, and the sum of all balances is what it was. *)
Lemma give_between_existing_rows (uq : bool) (ctx : Context) (config : Config)
  (recipient : Member) (amount : Z) (s : Store) (p q : GachaPlayer) :
  role_set config = true ->
  gacha_enabled config = true ->
  1 <= amount <= 999 ->
  player_keys_unique s ->
  find_player (guild_id ctx) (m_id (author ctx)) s = Some p ->
  find_player (guild_id ctx) (m_id recipient) s = Some q ->
  m_id recipient <> m_id (author ctx) ->
  amount <= currency_amount p ->
  exists s',
    run uq (gacha_give_currency ctx config recipient amount) s
      = (Ok (GaveCurrency amount), s') /\
    balance_of (guild_id ctx) (m_id (author ctx)) s'
      = currency_amount p - amount /\
    balance_of (guild_id ctx) (m_id recipient) s'
      = currency_amount q + amount /\
    total_currency s' = total_currency s.
Proof.
  intros Hrole Hon Hamt Hnd Hp Hq Hne Hbal.
  destruct (transfer_lookups _ _ _ amount s p q Hnd Hp Hq Hne)
    as (Ha1 & _ & Ha2 & Hr2).
  pose proof (find_player_In _ _ _ _ Hp) as [Hinp _].
  pose proof (find_player_In _ _ _ _ Hq) as [Hinq _].
  pose proof (find_player_In _ _ _ _ Ha1) as [Hinp1 _].
  exists (debited amount p (credited amount q s)).
  split; [|split; [|split]].
  - unfold gacha_give_currency. rewrite Hrole, Hon. cbn [negb orb run exec].
    rewrite Hp. unfold give_from.
    assert (Hge : (currency_amount p <? amount) = false)
      by (apply Z.ltb_ge; exact Hbal).
    rewrite Hge. cbn [run exec]. rewrite Hq.
    apply run_give_commit; assumption.
  - unfold balance_of. rewrite Ha2. reflexivity.
  - unfold balance_of. rewrite Hr2. reflexivity.
  - unfold total_currency, debited. simpl players.
    rewrite total_after_save.
    + unfold credited. simpl players.
      rewrite (total_after_save _ q (players s) Hnd Hinq). lia.
    + unfold credited. simpl players. rewrite overwrite_keeps_ids. exact Hnd.
    + exact Hinp1.
Qed.

(** ** The eligible rows *)

Lemma insert_by_id_perm (i : GachaItem) (l : list GachaItem) :
  Permutation (insert_by_id i l) (i :: l).
Proof.
  induction l as [|j l IH]; simpl; [reflexivity|].
  destruct (i_id i <=? i_id j); [reflexivity|].
  rewrite IH. apply perm_swap.
Qed.

Lemma sort_by_id_perm (l : list GachaItem) : Permutation (sort_by_id l) l.
Proof.
  induction l as [|i l IH]; simpl; [reflexivity|].
  rewrite insert_by_id_perm. now apply perm_skip.
Qed.

Lemma eligible_perm (g : Z) (s : Store) :
  Permutation (eligible g s) (filter (in_stock g) (items s)).
Proof. apply sort_by_id_perm. Qed.

Lemma eligible_In (g : Z) (s : Store) (e : GachaItem) :
  In e (eligible g s) <->
  In e (items s) /\ i_guild_id e = g /\ amount e <> 0.
Proof.
  split.
  - intros H. apply (Permutation_in _ (eligible_perm g s)) in H.
    apply filter_In in H as [Hin Hst]. unfold in_stock in Hst.
    apply andb_true_iff in Hst as [Hg Ha].
    apply Z.eqb_eq in Hg. apply negb_true_iff, Z.eqb_neq in Ha. auto.
  - intros (Hin & Hg & Ha).
    apply (Permutation_in _ (Permutation_sym (eligible_perm g s))).
    apply filter_In. split; [exact Hin|]. unfold in_stock.
    apply andb_true_iff. split; [now apply Z.eqb_eq|].
    now apply negb_true_iff, Z.eqb_neq.
Qed.

Lemma eligible_same_items (g : Z) (s s' : Store) :
  items s' = items s -> eligible g s' = eligible g s.
Proof. unfold eligible. now intros ->. Qed.

Lemma filter_keeps_unique_keys (P : GachaItem -> bool) (l : list GachaItem) :
  NoDup (map i_id l) -> NoDup (map i_id (filter P l)).
Proof.
  induction l as [|i l IH]; simpl; intros Hnd; [constructor|].
  inversion Hnd as [|? ? Hnotin Hnd']; subst.
  destruct (P i); simpl; [|now apply IH].
  constructor; [|now apply IH].
  intros Hin. apply Hnotin.
  apply in_map_iff in Hin as (x & Hx & Hxin).
  apply filter_In in Hxin as [Hxin _].
  apply in_map_iff. now exists x.
Qed.

Lemma eligible_unique_keys (g : Z) (s : Store) :
  item_keys_unique s -> NoDup (map i_id (eligible g s)).
Proof.
  intros Hnd.
  apply (Permutation_NoDup
           (Permutation_map i_id (Permutation_sym (eligible_perm g s)))).
  now apply filter_keeps_unique_keys.
Qed.

(** ** Draw: the batch *)

Lemma set_amount_keeps_ids (id a : Z) (l : list GachaItem) :
  map i_id (map (set_amount id a) l) = map i_id l.
Proof.
  rewrite map_map. apply map_ext. intros i. unfold set_amount.
  destruct (i_id i =? id); reflexivity.
Qed.

Lemma decrement_keeps_ids (id c : Z) (l : list GachaPlayer) :
  map p_id (map (decrement id c) l) = map p_id l.
Proof.
  rewrite map_map. apply map_ext. intros p. unfold decrement.
  destruct (p_id p =? id); reflexivity.
Qed.

Lemma has_item_id_ids (id : Z) (s s' : Store) :
  map i_id (items s') = map i_id (items s) ->
  has_item_id id s' = has_item_id id s.
Proof.
  unfold has_item_id. intros H.
  assert (E : forall l, existsb (fun i => i_id i =? id) l
                        = existsb (fun k => k =? id) (map i_id l)).
  { induction l as [|i l IH]; simpl; [reflexivity | now rewrite IH]. }
  rewrite !E, H. reflexivity.
Qed.

Lemma draw_batch_commits (e : GachaItem) (p : GachaPlayer) (c : Z) (s : Store) :
  In e (items s) -> In p (players s) ->
  apply_batch
    ((if negb (amount e =? -1)
      then [ItemUpdateAmount (i_id e) (amount (taken e))] else [])
     ++ [PlayerDecrement (p_id p) c; LinkCreate (i_id e) (p_id p)]) s
  = Some (drawn e p c s).
Proof.
  intros He Hp.
  pose proof (has_item_id_In s e He) as Hi.
  pose proof (has_player_id_In s p Hp) as Hpl.
  unfold drawn, taken.
  destruct (negb (amount e =? -1)) eqn:Hfin; cbn [app apply_batch apply_op].
  - rewrite Hi. cbn [apply_batch apply_op].
    rewrite (has_player_id_ids (p_id p) s) by reflexivity.
    rewrite Hpl. cbn [apply_batch apply_op].
    rewrite (has_item_id_ids (i_id e) s)
      by (simpl; apply set_amount_keeps_ids).
    rewrite (has_player_id_ids (p_id p) s)
      by (simpl; apply decrement_keeps_ids).
    rewrite Hi, Hpl. reflexivity.
  - rewrite Hpl. cbn [apply_batch apply_op].
    rewrite (has_item_id_ids (i_id e) s) by reflexivity.
    rewrite (has_player_id_ids (p_id p) s)
      by (simpl; apply decrement_keeps_ids).
    rewrite Hi, Hpl. reflexivity.
Qed.

(** A draw that passes its checks, from the count on. *)
Lemma run_draw_checked (uq : bool) (randint : Z -> Z -> Z) (ctx : Context)
  (config : Config) (s : Store) :
  role_set config = true ->
  gacha_enabled config = true ->
  has_role (author ctx) (player_role config) = true ->
  gacha_currency_cost config <= balance_of (guild_id ctx) (m_id (author ctx)) s ->
  let g := guild_id ctx in
  let p := fst (ensure_player g (m_id (author ctx)) s) in
  let s1 := snd (ensure_player g (m_id (author ctx)) s) in
  let n := Z.of_nat (List.length (eligible g s)) in
  run uq (gacha_draw randint ctx config) s =
  if n =? 0 then (Err out_of_stock, s1)
  else match picked g s (randint 0 (n - 1)) with
       | Some e => (Ok (ItemEmbed (taken e)),
                    drawn e p (gacha_currency_cost config) s1)
       | None => (Err RecordNotFoundError, s1)
       end.
Proof.
  intros Hrole Hon Hhas Hfunds g p s1 n.
  unfold gacha_draw. rewrite Hrole, Hon, Hhas. cbn [negb orb].
  rewrite run_get_or_create. fold g p s1.
  destruct (ensure_player_spec g (m_id (author ctx)) s)
    as (Hin & _ & Hbal & Hitems & _ & _ & _).
  fold p s1 in Hin, Hbal, Hitems.
  assert (Hge : (currency_amount p <? gacha_currency_cost config) = false).
  { apply Z.ltb_ge. rewrite Hbal. exact Hfunds. }
  rewrite Hge. cbn [run exec].
  rewrite (eligible_same_items g s s1 Hitems). fold n.
  destruct (n =? 0); cbn [run]; [reflexivity|].
  cbn [exec]. unfold picked.
  rewrite (eligible_same_items g s s1 Hitems).
  destruct (randint 0 (n - 1) <? 0); [reflexivity|].
  destruct (nth_error (eligible g s) (Z.to_nat (randint 0 (n - 1))))
    as [e|] eqn:He; [|reflexivity].
  cbn [run exec].
  assert (Hein : In e (items s1)).
  { rewrite Hitems. apply nth_error_In in He.
    apply eligible_In in He. tauto. }
  pose proof (draw_batch_commits e p (gacha_currency_cost config) s1 Hein Hin)
    as Hb.
  unfold taken in Hb |- *.
  destruct (negb (amount e =? -1)); rewrite Hb; reflexivity.
Qed.

(** ** Draw: selection *)

Lemma filter_map_length {A B : Type} (P : B -> bool) (f : A -> B) (l : list A) :
  List.length (filter P (map f l))
  = List.length (filter (fun a => P (f a)) l).
Proof.
  induction l as [|a l IH]; simpl; [reflexivity|].
  destruct (P (f a)); simpl; now rewrite IH.
Qed.

(** Positions of [E] holding the key [id]. *)
Lemma positions_cons (id : Z) (a : GachaItem) (E : list GachaItem) :
  List.length
    (filter (fun k => match nth_error (a :: E) k with
                      | Some i => i_id i =? id
                      | None => false
                      end) (seq 0 (List.length (a :: E))))
  = Nat.add (if i_id a =? id then 1%nat else 0%nat)
     (List.length
       (filter (fun k => match nth_error E k with
                         | Some i => i_id i =? id
                         | None => false
                         end) (seq 0 (List.length E)))).
Proof.
  change (seq 0 (List.length (a :: E)))
    with (0%nat :: seq 1 (List.length E)).
  rewrite <- seq_shift. cbn [filter nth_error].
  destruct (i_id a =? id); cbn [List.length Nat.add];
    rewrite filter_map_length; reflexivity.
Qed.

Lemma positions_absent (id : Z) (E : list GachaItem) :
  ~ In id (map i_id E) ->
  List.length
    (filter (fun k => match nth_error E k with
                      | Some i => i_id i =? id
                      | None => false
                      end) (seq 0 (List.length E))) = 0%nat.
Proof.
  induction E as [|a E IH]; intros Hnot; [reflexivity|].
  rewrite positions_cons.
  assert (Hne : (i_id a =? id) = false).
  { apply Z.eqb_neq. intros E'. apply Hnot. left. exact E'. }
  rewrite Hne, IH; [reflexivity|].
  intros Hin. apply Hnot. now right.
Qed.

Lemma positions_unique (e : GachaItem) (E : list GachaItem) :
  NoDup (map i_id E) -> In e E ->
  List.length
    (filter (fun k => match nth_error E k with
                      | Some i => i_id i =? i_id e
                      | None => false
                      end) (seq 0 (List.length E))) = 1%nat.
Proof.
  induction E as [|a E IH]; intros Hnd Hin; [contradiction|].
  inversion Hnd as [|? ? Hnotin Hnd']; subst.
  rewrite positions_cons.
  destruct Hin as [Heq|Hin].
  - subst a. rewrite Z.eqb_refl, positions_absent; [reflexivity | exact Hnotin].
  - assert (Hne : (i_id a =? i_id e) = false).
    { apply Z.eqb_neq. intros E'. apply Hnotin. rewrite E'.
      now apply in_map. }
    rewrite Hne, IH; auto.
Qed.

Lemma chances_positions (g : Z) (s : Store) (e : GachaItem) :
  chances g s e =
  List.length
    (filter (fun k => match nth_error (eligible g s) k with
                      | Some i => i_id i =? i_id e
                      | None => false
                      end) (seq 0 (List.length (eligible g s)))).
Proof.
  unfold chances, outcomes. rewrite filter_map_length.
  f_equal. apply filter_ext. intros k.
  unfold picks, picked.
  assert (Hk : (Z.of_nat k <? 0) = false) by (apply Z.ltb_ge; lia).
  rewrite Hk, Nat2Z.id. reflexivity.
Qed.

Lemma outcomes_length (g : Z) (s : Store) :
  List.length (outcomes g s) = List.length (eligible g s).
Proof. unfold outcomes. now rewrite length_map, length_seq. Qed.

(** C8. With the feature enabled, the caller holding the player role and
    the draw paid for: the rows the draw
    selects among are exactly the guild's items with a stock other than 0;
    when there is none the draw fails with "No items to draw."; otherwise,
    for whatever index [randint(0, n-1)] returns, the draw succeeds with
    the eligible row at that index; and every eligible row is selected by
    exactly one of the [n] equally likely indices, probability 1/n,
    whatever its stock. *)
Theorem draw_selection_uniform (uq : bool) (randint : Z -> Z -> Z)
  (ctx : Context) (config : Config) (s : Store) :
  role_set config = true ->
  gacha_enabled config = true ->
  has_role (author ctx) (player_role config) = true ->
  gacha_currency_cost config <= balance_of (guild_id ctx) (m_id (author ctx)) s ->
  item_keys_unique s ->
  randint_in_range randint ->
  let g := guild_id ctx in
  let n := List.length (eligible g s) in
  (forall e, In e (eligible g s) <->
             In e (items s) /\ i_guild_id e = g /\ amount e <> 0) /\
  (n = 0%nat ->
     fst (run uq (gacha_draw randint ctx config) s) = Err out_of_stock) /\
  (n <> 0%nat ->
     exists e,
       picked g s (randint 0 (Z.of_nat n - 1)) = Some e /\
       In e (eligible g s) /\
       fst (run uq (gacha_draw randint ctx config) s)
         = Ok (ItemEmbed (taken e))) /\
  (forall e, In e (eligible g s) ->
     chances g s e = 1%nat /\
     List.length (outcomes g s) = n /\
     probability g s e == 1 # Pos.of_nat n).
Proof.
  intros Hrole Hon Hhas Hfunds Hkeys Hrand g n.
  pose proof (run_draw_checked uq randint ctx config s Hrole Hon Hhas Hfunds)
    as Hrun. cbv zeta in Hrun. fold g n in Hrun.
  split; [|split; [|split]].
  - intros e. apply eligible_In.
  - intros Hn. rewrite Hrun, Hn. reflexivity.
  - intros Hn. rewrite Hrun.
    assert (Hz : (Z.of_nat n =? 0) = false) by (apply Z.eqb_neq; lia).
    rewrite Hz.
    destruct (Hrand 0 (Z.of_nat n - 1)) as [Hlo Hhi]; [lia|].
    unfold picked.
    assert (Hneg : (randint 0 (Z.of_nat n - 1) <? 0) = false)
      by (apply Z.ltb_ge; exact Hlo).
    rewrite Hneg.
    destruct (nth_error (eligible g s) (Z.to_nat (randint 0 (Z.of_nat n - 1))))
      as [e|] eqn:He.
    + exists e. repeat split. now apply nth_error_In in He.
    + exfalso. apply nth_error_None in He. fold n in He. lia.
  - intros e He.
    assert (Hone : chances g s e = 1%nat).
    { rewrite chances_positions. apply positions_unique; [|exact He].
      now apply eligible_unique_keys. }
    split; [exact Hone|]. split; [apply outcomes_length|].
    unfold probability. rewrite Hone, outcomes_length. fold n. reflexivity.
Qed.

Lemma draw_selection_uniform_witness :
  let g := 100 in
  let n := List.length (eligible g Sample.store) in
  (forall e, In e (eligible g Sample.store) <->
             In e (items Sample.store) /\ i_guild_id e = g /\ amount e <> 0) /\
  (n = 0%nat ->
     fst (run true (gacha_draw Sample.highest Sample.as_alice Sample.config)
            Sample.store) = Err out_of_stock) /\
  (n <> 0%nat ->
     exists e,
       picked g Sample.store (Sample.highest 0 (Z.of_nat n - 1)) = Some e /\
       In e (eligible g Sample.store) /\
       fst (run true (gacha_draw Sample.highest Sample.as_alice Sample.config)
              Sample.store) = Ok (ItemEmbed (taken e))) /\
  (forall e, In e (eligible g Sample.store) ->
     chances g Sample.store e = 1%nat /\
     List.length (outcomes g Sample.store) = n /\
     probability g Sample.store e == 1 # Pos.of_nat n).
Proof.
  apply (draw_selection_uniform true Sample.highest Sample.as_alice
           Sample.config Sample.store).
  - reflexivity.
  - reflexivity.
  - reflexivity.
  - vm_compute. discriminate.
  - unfold item_keys_unique. simpl.
    repeat constructor; simpl; intuition discriminate.
  - intros lo hi H. unfold Sample.highest. lia.
Defined.

(** ** Stock under interleaving *)

Lemma unique_item_key (l : list GachaItem) (x y : GachaItem) :
  NoDup (map i_id l) -> In x l -> In y l -> i_id x = i_id y -> x = y.
Proof.
  induction l as [|a l IH]; simpl; intros Hnd Hx Hy E; [contradiction|].
  inversion Hnd as [|? ? Hnotin Hnd']; subst.
  destruct Hx as [Hx|Hx], Hy as [Hy|Hy]; subst.
  - reflexivity.
  - exfalso. apply Hnotin. rewrite E. now apply in_map.
  - exfalso. apply Hnotin. rewrite <- E. now apply in_map.
  - now apply IH.
Qed.

Lemma Forall2_row_of {A B : Type} (R : A -> B -> Prop) (l0 : list A)
  (l : list B) (x : B) :
  Forall2 R l0 l -> In x l -> exists x0, In x0 l0 /\ R x0 x.
Proof.
  induction 1 as [|a b l0 l Hab _ IH]; simpl; [contradiction|].
  intros [Hx|Hx].
  - subst. exists a. auto.
  - destruct (IH Hx) as (x0 & Hin & Hr). exists x0. auto.
Qed.

Lemma Forall2_map_rows {A B : Type} (R : A -> B -> Prop) (f : B -> B)
  (l0 : list A) (l : list B) :
  Forall2 R l0 l ->
  (forall x0 x, In x0 l0 -> R x0 x -> R x0 (f x)) ->
  Forall2 R l0 (map f l).
Proof.
  induction 1 as [|a b l0 l Hab _ IH]; simpl; intros Hf; constructor.
  - apply Hf; [now left | exact Hab].
  - apply IH. intros x0 x Hin. apply Hf. now right.
Qed.

Lemma stock_kept_same_items (s0 s s' : Store) :
  items s' = items s -> stock_kept s0 s -> stock_kept s0 s'.
Proof. unfold stock_kept. now intros ->. Qed.

Lemma stock_kept_refl (s0 : Store) : stock_kept s0 s0.
Proof.
  unfold stock_kept. induction (items s0) as [|i l IH]; constructor; auto.
Qed.

Lemma apply_op_keeps_stock (s0 : Store) (op : BatchOp) (s s' : Store) :
  item_keys_unique s0 ->
  write_keeps_stock s0 op ->
  stock_kept s0 s ->
  apply_op op s = Some s' ->
  stock_kept s0 s'.
Proof.
  intros Hkeys Hw Hkept. destruct op as [id a|id c|iid pid]; simpl.
  - destruct (has_item_id id s); [|discriminate].
    intros H. inversion H; subst; clear H.
    destruct Hw as [Ha (j0 & Hj0 & Hid & Hfin)].
    unfold stock_kept. simpl items.
    apply Forall2_map_rows; [exact Hkept|].
    intros x0 x Hx0 (Hsame & Hunl & Hfinx).
    unfold set_amount. destruct (i_id x =? id) eqn:E; [|auto].
    apply Z.eqb_eq in E. simpl. repeat split; auto.
    intros Hminus. exfalso.
    assert (x0 = j0) by (apply (unique_item_key _ _ _ Hkeys Hx0 Hj0); congruence).
    subst. lia.
  - destruct (has_player_id id s); [|discriminate].
    intros H. inversion H; subst. exact Hkept.
  - destruct (has_item_id iid s && has_player_id pid s); [|discriminate].
    intros H. inversion H; subst. exact Hkept.
Qed.

Lemma apply_batch_keeps_stock (s0 : Store) (ops : list BatchOp) :
  item_keys_unique s0 ->
  Forall (write_keeps_stock s0) ops ->
  forall s s', stock_kept s0 s -> apply_batch ops s = Some s' ->
               stock_kept s0 s'.
Proof.
  intros Hkeys. induction 1 as [|op ops Hop _ IH]; simpl; intros s s' Hkept.
  - intros H. inversion H; subst. exact Hkept.
  - destruct (apply_op op s) as [s1|] eqn:E; [|discriminate].
    apply IH. exact (apply_op_keeps_stock s0 op s s1 Hkeys Hop Hkept E).
Qed.

Lemma exec_keeps_stock (uq : bool) (s0 : Store) {X : Type} (q : Query X)
  (s : Store) :
  item_keys_unique s0 ->
  stock_at_least_unlimited s0 ->
  query_keeps_stock s0 q ->
  stock_kept s0 s ->
  stock_kept s0 (snd (exec uq q s)) /\
  forall x, fst (exec uq q s) = Ok x -> answer_in_stock s0 q x.
Proof.
  intros Hkeys Hmin Hq Hkept.
  destruct q as [g u|g u|p|g|skip g|g name u|ops]; simpl.
  - auto.
  - destruct uq, (find_player g u s); simpl; auto.
  - destruct (has_player_id (p_id p) s); simpl; auto.
  - auto.
  - destruct (skip <? 0); simpl; [split; [auto | discriminate]|].
    destruct (nth_error (eligible g s) (Z.to_nat skip)) as [i|] eqn:E; simpl;
      [|split; [auto | discriminate]].
    split; [exact Hkept|]. intros x Hx. inversion Hx; subst x; clear Hx.
    apply nth_error_In, eligible_In in E as (Hin & _ & Hnz).
    destruct (Forall2_row_of _ _ _ _ Hkept Hin)
      as (i0 & Hi0 & Hid & Hunl & Hfin).
    pose proof (proj1 (Forall_forall _ _) Hmin i0 Hi0) as Hlow. simpl in Hlow.
    destruct (Z.eq_dec (amount i0) (-1)) as [Heq|Hne].
    + left. auto.
    + right. assert (H0 : 0 <= amount i0) by lia.
      split; [specialize (Hfin H0); lia|].
      exists i0. repeat split; auto.
  - auto.
  - destruct (apply_batch ops s) as [s'|] eqn:E; simpl; [|auto].
    split; [|auto].
    exact (apply_batch_keeps_stock s0 ops Hkeys Hq s s' Hkept E).
Qed.

Lemma give_keeps_stock (s0 : Store) (ctx : Context) (config : Config)
  (recipient : Member) (amount : Z) :
  keeps_stock s0 (gacha_give_currency ctx config recipient amount).
Proof.
  unfold gacha_give_currency, give_from, give_commit.
  repeat keeps_step.
Qed.

Lemma draw_keeps_stock (s0 : Store) (randint : Z -> Z -> Z) (ctx : Context)
  (config : Config) :
  keeps_stock s0 (gacha_draw randint ctx config).
Proof.
  unfold gacha_draw, get_or_create.
  assert (Htail : forall player,
    keeps_stock s0
      (if currency_amount player <? gacha_currency_cost config
       then Raise insufficient_funds_draw
       else
         item_count <- ItemCount (guild_id ctx) ;;
         if item_count =? 0 then Raise out_of_stock
         else
           item <- ItemFindFirstOrRaise (randint 0 (item_count - 1))
                     (guild_id ctx) ;;
           let item' := if negb (amount item =? -1)
                        then with_amount item (amount item - 1) else item in
           Batch ((if negb (amount item =? -1)
                   then [ItemUpdateAmount (i_id item) (amount item')] else [])
                  ++ [PlayerDecrement (p_id player) (gacha_currency_cost config);
                      LinkCreate (i_id item) (p_id player)]) ;;;
           Ret (ItemEmbed item'))).
  { intros player. repeat keeps_step.
    cbv zeta. apply keeps_vis; [|intros; apply keeps_ret].
    simpl in H0. simpl.
    destruct (negb (amount x0 =? -1)) eqn:Hfin; simpl.
    - constructor; [|repeat constructor].
      apply negb_true_iff, Z.eqb_neq in Hfin.
      destruct H0 as [Hu|[Hge Hkey]]; [contradiction|].
      simpl. split; [lia | exact Hkey].
    - repeat constructor. }
  repeat (first [apply Htail | keeps_step]).
Qed.

Lemma handle_keeps_stock (s0 : Store) (c : Command) : keeps_stock s0 (handle c).
Proof.
  destruct c as [randint ctx config|ctx config recipient amount|ctx config|ctx name];
    simpl.
  - apply draw_keeps_stock.
  - apply give_keeps_stock.
  - unfold gacha_profile. repeat keeps_step.
  - unfold gacha_user_view_item. repeat keeps_step.
Qed.

Lemma step_keeps_stock (uq : bool) (s0 : Store) (p : Prog Reply) (s : Store) :
  item_keys_unique s0 ->
  stock_at_least_unlimited s0 ->
  keeps_stock s0 p ->
  stock_kept s0 s ->
  keeps_stock s0 (fst (step uq p s)) /\ stock_kept s0 (snd (step uq p s)).
Proof.
  intros Hkeys Hmin Hp Hkept.
  destruct Hp as [a|e|X q k Hq Hk]; simpl; try (split; [constructor | exact Hkept]).
  destruct (exec_keeps_stock uq s0 q s Hkeys Hmin Hq Hkept) as [Hs Hans].
  destruct (exec uq q s) as [[x|e] s']; simpl in *.
  - split; [apply Hk, Hans; reflexivity | exact Hs].
  - split; [constructor | exact Hs].
Qed.

Lemma update_nth_Forall {A : Type} (P : A -> Prop) (n : nat) (a : A)
  (l : list A) :
  Forall P l -> P a -> Forall P (update_nth n a l).
Proof.
  intros Hl Ha. revert n.
  induction Hl as [|b l Hb Hl IH]; intros [|n]; simpl;
    try constructor; auto.
Qed.

Lemma interleave_keeps_stock (uq : bool) (s0 : Store) (schedule : list nat) :
  item_keys_unique s0 ->
  stock_at_least_unlimited s0 ->
  forall w,
    Forall (keeps_stock s0) (fst w) -> stock_kept s0 (snd w) ->
    Forall (keeps_stock s0) (fst (interleave uq schedule w)) /\
    stock_kept s0 (snd (interleave uq schedule w)).
Proof.
  intros Hkeys Hmin.
  induction schedule as [|i schedule IH]; intros w Hpool Hkept; simpl.
  - auto.
  - apply IH; unfold schedule_step;
      destruct (nth_error (fst w) i) as [p|] eqn:E; auto;
      assert (Hp : keeps_stock s0 p)
        by (apply (proj1 (Forall_forall _ _) Hpool), (nth_error_In _ _ E));
      destruct (step_keeps_stock uq s0 p (snd w) Hkeys Hmin Hp Hkept)
        as [Hp' Hs'];
      destruct (step uq p (snd w)) as [p' s']; simpl in *.
    + now apply update_nth_Forall.
    + exact Hs'.
Qed.

(** ** Draw: the last unit, one call after the other *)

Lemma filter_none {A : Type} (P : A -> bool) (l : list A) :
  (forall x, In x l -> P x = false) -> filter P l = [].
Proof.
  induction l as [|a l IH]; simpl; intros H; [reflexivity|].
  rewrite (H a (or_introl eq_refl)). apply IH. intros x Hx. apply H. now right.
Qed.

Lemma eligible_after_last_unit (g c : Z) (s : Store) (a : GachaItem)
  (p : GachaPlayer) :
  eligible g s = [a] -> amount a = 1 ->
  eligible g (drawn a p c s) = [].
Proof.
  intros He Ha. unfold eligible, drawn. simpl items.
  rewrite Ha. simpl negb. cbv iota.
  rewrite filter_none; [reflexivity|].
  intros x Hx. apply in_map_iff in Hx as (y & Hy & Hin). subst x.
  unfold set_amount. destruct (i_id y =? i_id a) eqn:E.
  - unfold in_stock. simpl. apply andb_false_r.
  - destruct (in_stock g y) eqn:Hst; [|reflexivity]. exfalso.
    assert (Hel : In y (eligible g s)).
    { apply (Permutation_in _ (Permutation_sym (eligible_perm g s))).
      apply filter_In. auto. }
    rewrite He in Hel. destruct Hel as [Hel|[]]. subst y.
    rewrite Z.eqb_refl in E. discriminate.
Qed.

(** C2, as the claim states it, fails: Alice's and Bob's draws both read
    item A with one unit left before either commits; both commit.  The
    second batch is applied when the stock is already 0, both calls
    succeed, and two ownership rows exist for the single unit. *)
Lemma both_draws_of_the_last_unit_succeed :
  let pool := [gacha_draw Sample.lowest Sample.as_alice Sample.config;
               gacha_draw Sample.lowest Sample.as_bob Sample.config] in
  let before := interleave true [0; 0; 0; 1; 1; 1; 0]%nat
                  (pool, Sample.last_unit) in
  let after := interleave true [0; 0; 0; 1; 1; 1; 0; 1]%nat
                 (pool, Sample.last_unit) in
  items (snd before) = [mkItem 1 100 "A" 0] /\
  links (snd before) = [mkLink 1 1] /\
  fst after = [Ret (ItemEmbed (mkItem 1 100 "A" 0));
               Ret (ItemEmbed (mkItem 1 100 "A" 0))] /\
  items (snd after) = [mkItem 1 100 "A" 0] /\
  links (snd after) = [mkLink 1 1; mkLink 1 2].
Proof. vm_compute. repeat split. Qed.

(** C2, amended. A draw writes the stock it read at selection time minus
    one, without looking at the stock again when it commits.  Since
    selection only returns rows with a stock other than 0, in every
    interleaving of any commands a finite item stays finite with a stock
    of at least 0 and an unlimited item stays unlimited.  Two draws run
    one after the other in a guild whose only eligible item has one unit
    left give one success and one "No items to draw." *)
Theorem stock_kept_without_commit_check :
  (forall uq s0 cmds schedule,
     item_keys_unique s0 ->
     stock_at_least_unlimited s0 ->
     stock_kept s0 (snd (interleave uq schedule (map handle cmds, s0)))) /\
  (forall uq randint1 randint2 ctx1 ctx2 config s a,
     role_set config = true ->
     gacha_enabled config = true ->
     has_role (author ctx1) (player_role config) = true ->
     has_role (author ctx2) (player_role config) = true ->
     guild_id ctx2 = guild_id ctx1 ->
     randint_in_range randint1 ->
     eligible (guild_id ctx1) s = [a] ->
     amount a = 1 ->
     gacha_currency_cost config
       <= balance_of (guild_id ctx1) (m_id (author ctx1)) s ->
     let first := run uq (gacha_draw randint1 ctx1 config) s in
     gacha_currency_cost config
       <= balance_of (guild_id ctx2) (m_id (author ctx2)) (snd first) ->
     fst first = Ok (ItemEmbed (with_amount a 0)) /\
     fst (run uq (gacha_draw randint2 ctx2 config) (snd first))
       = Err out_of_stock).
Proof.
  split.
  - intros uq s0 cmds schedule Hkeys Hmin.
    apply (interleave_keeps_stock uq s0 schedule Hkeys Hmin).
    + simpl. apply Forall_forall. intros p Hp.
      apply in_map_iff in Hp as (c & <- & _). apply handle_keeps_stock.
    + apply stock_kept_refl.
  - intros uq randint1 randint2 ctx1 ctx2 config s a
           Hrole Hon Hhas1 Hhas2 Hg Hrand He Ha Hfunds1 first Hfunds2.
    pose proof (run_draw_checked uq randint1 ctx1 config s Hrole Hon Hhas1 Hfunds1)
      as H1. cbv zeta in H1. rewrite He in H1. simpl List.length in H1.
    change (Z.of_nat 1 =? 0) with false in H1. cbv iota in H1.
    change (Z.of_nat 1 - 1) with 0 in H1.
    destruct (Hrand 0 0 (Z.le_refl 0)) as [Hlo Hhi].
    assert (Hr : randint1 0 0 = 0) by lia.
    rewrite Hr in H1. unfold picked in H1. rewrite He in H1. simpl in H1.
    assert (Htaken : taken a = with_amount a 0).
    { unfold taken. rewrite Ha. reflexivity. }
    rewrite Htaken in H1.
    unfold first in *. rewrite H1 in *. simpl fst. simpl snd in *.
    split; [reflexivity|].
    pose proof (run_draw_checked uq randint2 ctx2 config _ Hrole Hon Hhas2 Hfunds2)
      as H2. cbv zeta in H2.
    rewrite Hg in H2.
    rewrite eligible_after_last_unit in H2.
    + rewrite H2. reflexivity.
    + rewrite <- He. apply eligible_same_items.
      apply (ensure_player_spec (guild_id ctx1) (m_id (author ctx1)) s).
    + exact Ha.
Qed.

Lemma stock_kept_without_commit_check_witness :
  stock_kept Sample.last_unit
    (snd (interleave true [0; 0; 0; 1; 1; 1; 0; 1]%nat
            (map handle [Draw Sample.lowest Sample.as_alice Sample.config;
                         Draw Sample.lowest Sample.as_bob Sample.config],
             Sample.last_unit))) /\
  fst (run true (gacha_draw Sample.lowest Sample.as_alice Sample.config)
         Sample.last_unit) = Ok (ItemEmbed (with_amount (mkItem 1 100 "A" 1) 0)) /\
  fst (run true (gacha_draw Sample.lowest Sample.as_bob Sample.config)
         (snd (run true (gacha_draw Sample.lowest Sample.as_alice Sample.config)
                 Sample.last_unit))) = Err out_of_stock.
Proof.
  split.
  - apply (proj1 stock_kept_without_commit_check).
    + unfold item_keys_unique. simpl. repeat constructor. simpl. tauto.
    + unfold stock_at_least_unlimited. simpl. repeat constructor. simpl. lia.
  - apply (proj2 stock_kept_without_commit_check true Sample.lowest
             Sample.lowest Sample.as_alice Sample.as_bob Sample.config
             Sample.last_unit (mkItem 1 100 "A" 1));
      first [ reflexivity
            | (intros lo hi H; unfold Sample.lowest; lia)
            | (vm_compute; discriminate) ].
Defined.

(** ** Balances in sequential histories *)

Lemma ledger_ok_fresh (g u : Z) (s : Store) :
  ledger_ok s ->
  ledger_ok (mkStore (players s ++ [mkPlayer (next_id (map p_id (players s))) g u 0])
                     (items s) (links s)).
Proof.
  intros [Hnd Hnn]. split.
  - unfold player_keys_unique in *. simpl players. rewrite map_app. simpl map.
    apply (Permutation_NoDup (Permutation_cons_append _ _)).
    constructor; [|exact Hnd].
    intros Hin. apply next_id_above in Hin. lia.
  - unfold balances_nonneg in *. simpl players.
    apply Forall_app. split; [exact Hnn|]. repeat constructor. simpl. lia.
Qed.

Lemma ledger_ok_ensure (g u : Z) (s : Store) :
  ledger_ok s -> ledger_ok (snd (ensure_player g u s)).
Proof.
  intros H. unfold ensure_player.
  destruct (find_player g u s); simpl; [exact H | now apply ledger_ok_fresh].
Qed.

Lemma ledger_ok_overwrite (q : GachaPlayer) (s : Store) :
  ledger_ok s -> 0 <= currency_amount q ->
  ledger_ok (mkStore (map (overwrite q) (players s)) (items s) (links s)).
Proof.
  intros [Hnd Hnn] Hq. split.
  - unfold player_keys_unique in *. simpl players.
    now rewrite overwrite_keeps_ids.
  - unfold balances_nonneg in *. simpl players.
    apply Forall_forall. intros x Hx.
    apply in_map_iff in Hx as (y & <- & Hy).
    unfold overwrite. destruct (p_id y =? p_id q); [exact Hq|].
    exact (proj1 (Forall_forall _ _) Hnn y Hy).
Qed.

Lemma ledger_ok_drawn (e : GachaItem) (p : GachaPlayer) (c : Z) (s : Store) :
  ledger_ok s -> In p (players s) -> c <= currency_amount p ->
  ledger_ok (drawn e p c s).
Proof.
  intros [Hnd Hnn] Hp Hc. split.
  - unfold player_keys_unique, drawn in *. simpl players.
    now rewrite decrement_keeps_ids.
  - unfold balances_nonneg, drawn in *. simpl players.
    apply Forall_forall. intros x Hx.
    apply in_map_iff in Hx as (y & <- & Hy).
    unfold decrement. destruct (p_id y =? p_id p) eqn:E.
    + apply Z.eqb_eq in E.
      rewrite (unique_key_row _ y p Hnd Hy Hp E). simpl. lia.
    + exact (proj1 (Forall_forall _ _) Hnn y Hy).
Qed.

Lemma ledger_ok_commit (amount : Z) (p rp : GachaPlayer) (s : Store) :
  ledger_ok s -> In p (players s) -> In rp (players s) ->
  0 <= amount <= currency_amount p ->
  ledger_ok (debited amount p (credited amount rp s)).
Proof.
  intros Hok Hp Hrp [H0 Hle]. unfold debited, credited. simpl players.
  apply (ledger_ok_overwrite _ (mkStore _ (items s) (links s))).
  - apply ledger_ok_overwrite; [exact Hok|]. simpl.
    pose proof (proj1 (Forall_forall _ _) (proj2 Hok) rp Hrp). simpl in H. lia.
  - simpl. lia.
Qed.

Lemma draw_keeps_ledger (uq : bool) (randint : Z -> Z -> Z) (ctx : Context)
  (config : Config) (s : Store) :
  ledger_ok s -> ledger_ok (snd (run uq (gacha_draw randint ctx config) s)).
Proof.
  intros Hok.
  destruct (role_set config) eqn:Hrole;
    [|unfold gacha_draw; rewrite Hrole; exact Hok].
  destruct (gacha_enabled config) eqn:Hon;
    [|unfold gacha_draw; rewrite Hrole, Hon; exact Hok].
  destruct (has_role (author ctx) (player_role config)) eqn:Hhas;
    [|unfold gacha_draw; rewrite Hrole, Hon, Hhas; exact Hok].
  pose proof (ledger_ok_ensure (guild_id ctx) (m_id (author ctx)) s Hok) as Hok1.
  destruct (ensure_player_spec (guild_id ctx) (m_id (author ctx)) s)
    as (Hin & _ & Hbal & _).
  destruct (Z_le_gt_dec (gacha_currency_cost config)
              (balance_of (guild_id ctx) (m_id (author ctx)) s)) as [Hle|Hgt].
  - rewrite (run_draw_checked uq randint ctx config s Hrole Hon Hhas Hle).
    cbv zeta.
    destruct (Z.of_nat _ =? 0); [exact Hok1|].
    destruct (picked _ _ _) as [e|]; [|exact Hok1].
    simpl snd. apply ledger_ok_drawn; [exact Hok1 | exact Hin|].
    rewrite Hbal. exact Hle.
  - unfold gacha_draw. rewrite Hrole, Hon, Hhas. cbn [negb orb].
    rewrite run_get_or_create, Hbal.
    assert (Hlt : (balance_of (guild_id ctx) (m_id (author ctx)) s
                   <? gacha_currency_cost config) = true)
      by (apply Z.ltb_lt; lia).
    rewrite Hlt. exact Hok1.
Qed.

Lemma give_from_keeps_ledger (uq : bool) (ctx : Context) (config : Config)
  (recipient : Member) (amount : Z) (p : GachaPlayer) (s : Store) :
  ledger_ok s -> In p (players s) -> 0 <= amount ->
  ledger_ok (snd (run uq (give_from ctx config recipient amount p) s)).
Proof.
  intros Hok Hp H0. unfold give_from.
  destruct (currency_amount p <? amount) eqn:Hlt; [exact Hok|].
  apply Z.ltb_ge in Hlt. cbn [run exec].
  destruct (find_player (guild_id ctx) (m_id recipient) s) as [rp|] eqn:Hf.
  { apply find_player_In in Hf as [Hrp _].
    rewrite (run_give_commit uq amount p rp s Hp Hrp).
    apply ledger_ok_commit; auto. }
  destruct (has_role recipient (player_role config)); cbn [negb run];
    [|exact Hok].
  destruct (exec uq (PlayerCreate (guild_id ctx) (m_id (author ctx))) s)
    as [[rp|e'] s1] eqn:Hc; simpl in Hc.
  - assert (Hs1 : rp = mkPlayer (next_id (map p_id (players s)))
                                (guild_id ctx) (m_id (author ctx)) 0 /\
                  s1 = mkStore (players s ++ [rp]) (items s) (links s)).
    { destruct uq, (find_player (guild_id ctx) (m_id (author ctx)) s);
        inversion Hc; auto. }
    destruct Hs1 as [Hrp ->].
    rewrite run_give_commit;
      [| simpl; apply in_or_app; now left
       | simpl; apply in_or_app; right; now left].
    apply ledger_ok_commit; auto.
    + subst rp. now apply ledger_ok_fresh.
    + simpl. apply in_or_app. now left.
    + simpl. apply in_or_app. right. now left.
  - destruct uq, (find_player (guild_id ctx) (m_id (author ctx)) s);
      inversion Hc; subst; exact Hok.
Qed.

Lemma give_keeps_ledger (uq : bool) (ctx : Context) (config : Config)
  (recipient : Member) (amount : Z) (s : Store) :
  ledger_ok s -> 0 <= amount ->
  ledger_ok (snd (run uq (gacha_give_currency ctx config recipient amount) s)).
Proof.
  intros Hok Hb. unfold gacha_give_currency.
  destruct (negb (role_set config) || negb (gacha_enabled config));
    [exact Hok|]. cbn [run exec].
  destruct (find_player (guild_id ctx) (m_id (author ctx)) s) as [p|] eqn:Hf.
  { apply find_player_In in Hf as [Hp _].
    apply give_from_keeps_ledger; auto; lia. }
  destruct (has_role (author ctx) (player_role config)); cbn [negb run];
    [|exact Hok].
  rewrite (exec_create_absent uq _ _ s Hf).
  apply give_from_keeps_ledger.
  - now apply ledger_ok_fresh.
  - simpl. apply in_or_app. right. now left.
  - lia.
Qed.

Lemma handle_keeps_ledger (uq : bool) (c : Command) (s : Store) :
  ledger_ok s -> amount_as_declared c ->
  ledger_ok (snd (run uq (handle c) s)).
Proof.
  intros Hok Hamt.
  destruct c as [randint ctx config|ctx config recipient amount|ctx config|ctx name];
    simpl handle.
  - now apply draw_keeps_ledger.
  - apply give_keeps_ledger; [exact Hok|].
    unfold amount_as_declared, amount_min_value in Hamt. lia.
  - unfold gacha_profile.
    destruct (negb (role_set config) || negb (gacha_enabled config));
      [exact Hok|]. cbn [run exec].
    destruct (find_player (guild_id ctx) (m_id (author ctx)) s) eqn:Hf;
      [exact Hok|].
    destruct (has_role (author ctx) (player_role config)); cbn [negb run];
      [|exact Hok].
    rewrite (exec_create_absent uq _ _ s Hf). now apply ledger_ok_fresh.
  - unfold gacha_user_view_item. cbn [run exec].
    destruct (find _ (items s)); exact Hok.
Qed.

(** C4, as the claim states it, fails: two draws by Alice, who can pay for
    one, both pass the balance check before either commits; each commit
    takes the cost off her balance unconditionally and leaves it at -10. *)
Lemma interleaved_draws_overdraw :
  let pool := [gacha_draw Sample.lowest Sample.as_alice Sample.config;
               gacha_draw Sample.lowest Sample.as_alice Sample.config] in
  let after := interleave true [0; 0; 0; 1; 1; 1; 0; 1]%nat
                 (pool, Sample.last_unit) in
  balance_of 100 1 Sample.last_unit = 10 /\
  fst after = [Ret (ItemEmbed (mkItem 1 100 "A" 0));
               Ret (ItemEmbed (mkItem 1 100 "A" 0))] /\
  balance_of 100 1 (snd after) = -10.
Proof. vm_compute. repeat split. Qed.

(** C4, amended. The draw checks the balance when it validates and takes
    the cost off unconditionally when it commits; the transfer handler
    relies on the amount being within the range its option declares.  In
    every history in which each draw, transfer, profile or view-item
    command runs to completion before the next starts and every transfer's
    amount is within the declared range 1..999, from a store with unique
    player keys and balances of at least 0, every balance is at least 0
    after every command. *)
Theorem balances_nonneg_sequential (uq : bool) (cs : list Command) (s : Store) :
  player_keys_unique s ->
  balances_nonneg s ->
  Forall amount_as_declared cs ->
  balances_nonneg (run_history uq cs s).
Proof.
  intros Hnd Hnn Hamts.
  assert (H : ledger_ok (run_history uq cs s)).
  { assert (Hok : ledger_ok s) by (split; assumption).
    clear Hnd Hnn. revert s Hok. unfold run_history.
    induction Hamts as [|c cs Hamt _ IH]; intros s Hok; simpl; [exact Hok|].
    apply IH. now apply handle_keeps_ledger. }
  exact (proj2 H).
Qed.

Lemma balances_nonneg_sequential_witness :
  balances_nonneg
    (run_history true
       [Draw Sample.lowest Sample.as_alice Sample.config;
        Draw Sample.lowest Sample.as_alice Sample.config;
        Transfer Sample.as_bob Sample.config Sample.alice 10;
        Draw Sample.lowest Sample.as_alice Sample.config]
       Sample.last_unit).
Proof.
  apply (balances_nonneg_sequential true _ Sample.last_unit).
  - unfold player_keys_unique. simpl.
    repeat constructor; simpl; intuition discriminate.
  - unfold balances_nonneg. simpl. repeat constructor; simpl; lia.
  - repeat constructor; unfold amount_min_value, amount_max_value; lia.
Defined.

(** * Further properties of the handlers *)

(** ** Rows are never removed *)







Lemma player_keys_unique_fresh (g u c : Z) (s : Store) :
  player_keys_unique s ->
  player_keys_unique
    (mkStore (players s ++ [mkPlayer (next_id (map p_id (players s))) g u c])
             (items s) (links s)).
Proof.
  intros Hnd. unfold player_keys_unique in *. simpl players.
  rewrite map_app. simpl map.
  apply (Permutation_NoDup (Permutation_cons_append _ _)).
  constructor; [|exact Hnd].
  intros Hin. apply next_id_above in Hin. lia.
Qed.

Lemma apply_batch_player_ids (ops : list BatchOp) (s s' : Store) :
  apply_batch ops s = Some s' ->
  map p_id (players s') = map p_id (players s).
Proof.
  revert s. induction ops as [|op ops IH]; simpl; intros s.
  - intros H. now inversion H.
  - destruct (apply_op op s) as [s1|] eqn:E; [|discriminate].
    intros H. rewrite (IH s1 H).
    destruct op as [id a|id c|iid pid]; simpl in E.
    + destruct (has_item_id id s); inversion E; reflexivity.
    + destruct (has_player_id id s); inversion E; simpl.
      apply decrement_keeps_ids.
    + destruct (has_item_id iid s && has_player_id pid s);
        inversion E; reflexivity.
Qed.

Lemma exec_keeps_player_keys (uq : bool) {X : Type} (q : Query X) (s : Store) :
  player_keys_unique s -> player_keys_unique (snd (exec uq q s)).
Proof.
  intros Hnd.
  destruct q as [g u|g u|p|g|skip g|g name u|ops]; simpl; try exact Hnd.
  - destruct uq, (find_player g u s); simpl;
      try exact Hnd; now apply player_keys_unique_fresh.
  - destruct (has_player_id (p_id p) s); simpl; [|exact Hnd].
    unfold player_keys_unique in *. simpl. now rewrite overwrite_keeps_ids.
  - destruct (skip <? 0); [exact Hnd|].
    destruct (nth_error _ _); exact Hnd.
  - destruct (apply_batch ops s) as [s'|] eqn:E; simpl; [|exact Hnd].
    unfold player_keys_unique in *.
    now rewrite (apply_batch_player_ids ops s s' E).
Qed.






(** ** What a successful draw changes *)

Lemma find_player_ensure (g u : Z) (s : Store) :
  find_player g u (snd (ensure_player g u s)) = Some (fst (ensure_player g u s)).
Proof.
  unfold ensure_player.
  destruct (find_player g u s) as [p|] eqn:Hf; simpl; [exact Hf|].
  unfold find_player in *. simpl. rewrite find_player_app, Hf.
  now rewrite is_player_mk.
Qed.

Lemma player_keys_unique_ensure (g u : Z) (s : Store) :
  player_keys_unique s -> player_keys_unique (snd (ensure_player g u s)).
Proof.
  intros H. unfold ensure_player.
  destruct (find_player g u s); simpl; [exact H|].
  now apply player_keys_unique_fresh.
Qed.

Lemma total_currency_ensure (g u : Z) (s : Store) :
  total_currency (snd (ensure_player g u s)) = total_currency s.
Proof.
  unfold ensure_player. destruct (find_player g u s); simpl; [reflexivity|].
  unfold total_currency. simpl. rewrite fold_right_app. simpl.
  reflexivity.
Qed.

Lemma find_player_after_decrement (g u c : Z) (p : GachaPlayer) (s : Store) :
  find (is_player g u) (map (decrement (p_id p) c) (players s)) =
  option_map (decrement (p_id p) c) (find_player g u s).
Proof.
  unfold find_player. apply find_map_same.
  intros x _. unfold decrement. destruct (p_id x =? p_id p); reflexivity.
Qed.

Lemma total_after_decrement (c : Z) (p : GachaPlayer) (l : list GachaPlayer) :
  NoDup (map p_id l) -> In p l ->
  fold_right (fun q acc => currency_amount q + acc) 0
    (map (decrement (p_id p) c) l)
  = fold_right (fun q acc => currency_amount q + acc) 0 l - c.
Proof.
  induction l as [|a l IH]; simpl; intros Hnd Hp; [contradiction|].
  inversion Hnd as [|? ? Hnotin Hnd']; subst.
  destruct Hp as [Hp|Hp].
  - subst a. unfold decrement at 1. rewrite Z.eqb_refl. simpl.
    assert (Hrest : map (decrement (p_id p) c) l = l).
    { clear IH Hnd Hnd'. induction l as [|b l IHl]; simpl; [reflexivity|].
      unfold decrement at 1.
      destruct (p_id b =? p_id p) eqn:E.
      - apply Z.eqb_eq in E. exfalso. apply Hnotin. left. exact E.
      - f_equal. apply IHl. intros Hin. apply Hnotin. now right. }
    rewrite Hrest. lia.
  - unfold decrement at 1.
    destruct (p_id a =? p_id p) eqn:E.
    + apply Z.eqb_eq in E. exfalso. apply Hnotin. rewrite E. now apply in_map.
    + rewrite (IH Hnd' Hp). lia.
Qed.

(** With unique keys, the batch rewrites the drawn row and no other. *)
Lemma items_after_draw (e : GachaItem) (l : list GachaItem) :
  NoDup (map i_id l) -> In e l ->
  (if negb (amount e =? -1)
   then map (set_amount (i_id e) (amount e - 1)) l else l)
  = map (fun i => if i_id i =? i_id e then taken e else i) l.
Proof.
  intros Hnd He. unfold taken.
  destruct (negb (amount e =? -1)) eqn:Hfin.
  - apply map_ext_in. intros i Hi. unfold set_amount.
    destruct (i_id i =? i_id e) eqn:E; [|reflexivity].
    apply Z.eqb_eq in E.
    rewrite (unique_item_key l i e Hnd Hi He E). reflexivity.
  - rewrite <- (map_id l) at 1. apply map_ext_in. intros i Hi.
    destruct (i_id i =? i_id e) eqn:E; [|reflexivity].
    apply Z.eqb_eq in E.
    now rewrite (unique_item_key l i e Hnd Hi He E).
Qed.

(** The store a draw that goes through leaves, in terms of the row and
    the store [get_or_create] hands over. *)
Lemma run_draw_through (uq : bool) (randint : Z -> Z -> Z)
  (ctx : Context) (config : Config) (s : Store) :
  role_set config = true ->
  gacha_enabled config = true ->
  has_role (author ctx) (player_role config) = true ->
  gacha_currency_cost config <= balance_of (guild_id ctx) (m_id (author ctx)) s ->
  randint_in_range randint ->
  eligible (guild_id ctx) s <> [] ->
  exists e,
    In e (eligible (guild_id ctx) s) /\
    run uq (gacha_draw randint ctx config) s =
    (Ok (ItemEmbed (taken e)),
     drawn e (fst (ensure_player (guild_id ctx) (m_id (author ctx)) s))
           (gacha_currency_cost config)
           (snd (ensure_player (guild_id ctx) (m_id (author ctx)) s))).
Proof.
  intros Hrole Hon Hhas Hfunds Hrand Hne.
  pose proof (run_draw_checked uq randint ctx config s Hrole Hon Hhas Hfunds)
    as Hrun. cbv zeta in Hrun.
  set (n := List.length (eligible (guild_id ctx) s)) in *.
  assert (Hn : n <> 0%nat).
  { unfold n. intros H0. apply Hne. apply length_zero_iff_nil. exact H0. }
  assert (Hz : (Z.of_nat n =? 0) = false) by (apply Z.eqb_neq; lia).
  rewrite Hz in Hrun.
  destruct (Hrand 0 (Z.of_nat n - 1)) as [Hlo Hhi]; [lia|].
  unfold picked in Hrun.
  assert (Hneg : (randint 0 (Z.of_nat n - 1) <? 0) = false)
    by (apply Z.ltb_ge; exact Hlo).
  rewrite Hneg in Hrun.
  destruct (nth_error (eligible (guild_id ctx) s)
              (Z.to_nat (randint 0 (Z.of_nat n - 1)))) as [e|] eqn:He.
  - exists e. split; [now apply nth_error_In in He | exact Hrun].
  - exfalso. apply nth_error_None in He. fold n in He. lia.
Qed.

(** X1. A draw that passes its checks in a guild with at least one
    eligible item succeeds, and changes exactly this: the caller's balance
    goes down by the cost and nobody else's moves, the total goes down by
    the cost, one ownership row linking the drawn item to the caller's row
    is appended, and the drawn row loses one unit if its stock is finite
    while every other item row, and an unlimited drawn row, stays as it
    was. *)
Theorem draw_commits_exactly (uq : bool) (randint : Z -> Z -> Z)
  (ctx : Context) (config : Config) (s : Store) :
  role_set config = true ->
  gacha_enabled config = true ->
  has_role (author ctx) (player_role config) = true ->
  gacha_currency_cost config <= balance_of (guild_id ctx) (m_id (author ctx)) s ->
  player_keys_unique s ->
  item_keys_unique s ->
  randint_in_range randint ->
  eligible (guild_id ctx) s <> [] ->
  let g := guild_id ctx in
  let u := m_id (author ctx) in
  let cost := gacha_currency_cost config in
  exists e p s',
    run uq (gacha_draw randint ctx config) s = (Ok (ItemEmbed (taken e)), s') /\
    In e (eligible g s) /\
    amount (taken e) = (if amount e =? -1 then -1 else amount e - 1) /\
    find_player g u s' = Some (with_currency p (currency_amount p - cost)) /\
    balance_of g u s' = balance_of g u s - cost /\
    (forall g' u', (g', u') <> (g, u) ->
       balance_of g' u' s' = balance_of g' u' s) /\
    total_currency s' = total_currency s - cost /\
    links s' = links s ++ [mkLink (i_id e) (p_id p)] /\
    items s' = map (fun i => if i_id i =? i_id e then taken e else i) (items s).
Proof.
  intros Hrole Hon Hhas Hfunds Hpk Hik Hrand Hne g u cost.
  destruct (run_draw_through uq randint ctx config s
              Hrole Hon Hhas Hfunds Hrand Hne) as (e & He & Hrun).
  fold g u cost in He, Hrun.
  pose proof (proj1 (eligible_In g s e) He) as (Hein & _ & _).
  destruct (ensure_player_spec g u s)
    as (Hin & Hisp & Hbal & Hitems & Hlinks & Hsame & _).
  set (p := fst (ensure_player g u s)) in *.
  set (s1 := snd (ensure_player g u s)) in *.
  pose proof (player_keys_unique_ensure g u s Hpk) as Hpk1. fold s1 in Hpk1.
  pose proof (find_player_ensure g u s) as Hfp. fold p s1 in Hfp.
  exists e, p, (drawn e p cost s1).
  assert (Hlook : forall g' u',
            find_player g' u' (drawn e p cost s1)
            = option_map (decrement (p_id p) cost) (find_player g' u' s1)).
  { intros g' u'. unfold find_player at 1, drawn. simpl players.
    apply find_player_after_decrement. }
  split; [exact Hrun|]. split; [exact He|]. split.
  { unfold taken. destruct (amount e =? -1) eqn:E; simpl;
      [apply Z.eqb_eq in E; exact E | reflexivity]. }
  split.
  { rewrite Hlook, Hfp. simpl. unfold decrement. now rewrite Z.eqb_refl. }
  split.
  { unfold balance_of at 1. rewrite Hlook, Hfp. simpl.
    unfold decrement. rewrite Z.eqb_refl. simpl. now rewrite Hbal. }
  split.
  { intros g' u' Hother. rewrite <- (Hsame g' u').
    unfold balance_of. rewrite Hlook.
    destruct (find_player g' u' s1) as [r|] eqn:Hr; [|reflexivity].
    simpl. unfold decrement.
    destruct (p_id r =? p_id p) eqn:E; [|reflexivity].
    exfalso. apply Z.eqb_eq in E.
    apply find_player_In in Hr as [Hrin Hisr].
    pose proof (unique_key_row _ r p Hpk1 Hrin Hin E). subst r.
    destruct (is_player_same _ _ _ _ _ Hisp Hisr) as [? ?].
    apply Hother. congruence. }
  split.
  { unfold total_currency at 1, drawn. simpl players.
    rewrite (total_after_decrement cost p (players s1) Hpk1 Hin).
    fold (total_currency s1). unfold s1.
    now rewrite total_currency_ensure. }
  split.
  { unfold drawn. simpl links. now rewrite Hlinks. }
  unfold drawn. simpl items. rewrite Hitems.
  apply items_after_draw; assumption.
Qed.

Lemma draw_commits_exactly_witness :
  exists e p s',
    run true (gacha_draw Sample.lowest Sample.as_alice Sample.config)
        Sample.store = (Ok (ItemEmbed (taken e)), s') /\
    In e (eligible 100 Sample.store) /\
    amount (taken e) = (if amount e =? -1 then -1 else amount e - 1) /\
    find_player 100 1 s' = Some (with_currency p (currency_amount p - 10)) /\
    balance_of 100 1 s' = balance_of 100 1 Sample.store - 10 /\
    (forall g' u', (g', u') <> (100, 1) ->
       balance_of g' u' s' = balance_of g' u' Sample.store) /\
    total_currency s' = total_currency Sample.store - 10 /\
    links s' = links Sample.store ++ [mkLink (i_id e) (p_id p)] /\
    items s' = map (fun i => if i_id i =? i_id e then taken e else i)
                   (items Sample.store).
Proof.
  apply (draw_commits_exactly true Sample.lowest Sample.as_alice Sample.config
           Sample.store);
    first [ reflexivity
          | (vm_compute; discriminate)
          | (intros lo hi H; unfold Sample.lowest; lia)
          | (unfold player_keys_unique, item_keys_unique; simpl;
             repeat constructor; simpl; intuition discriminate) ].
Defined.

(** ** Viewing an item *)

Lemma owned_by_holds (g u : Z) (s : Store) (i : GachaItem) :
  owned_by g u s i = true <-> holds g u s i.
Proof.
  unfold owned_by, holds. split.
  - intros H. apply existsb_exists in H as (l & Hl & H).
    apply andb_true_iff in H as [Hid H].
    apply existsb_exists in H as (p & Hp & H).
    apply andb_true_iff in H as [Hpid H].
    unfold is_player in H. apply andb_true_iff in H as [Hg Hu].
    apply Z.eqb_eq in Hid, Hpid, Hg, Hu.
    exists l, p. repeat split; auto.
  - intros (l & p & Hl & Hp & Hid & Hpid & Hg & Hu).
    apply existsb_exists. exists l. split; [exact Hl|].
    apply andb_true_iff. split; [now apply Z.eqb_eq|].
    apply existsb_exists. exists p. split; [exact Hp|].
    apply andb_true_iff. split; [apply Z.eqb_eq; auto|].
    unfold is_player. apply andb_true_iff. split; now apply Z.eqb_eq.
Qed.

Lemma view_item_filter (g u : Z) (name : string) (s : Store) (i : GachaItem) :
  (i_guild_id i =? g) && String.eqb (i_name i) name && owned_by g u s i = true
  <-> i_guild_id i = g /\ i_name i = name /\ holds g u s i.
Proof.
  rewrite !andb_true_iff, Z.eqb_eq, String.eqb_eq, owned_by_holds. tauto.
Qed.

(** X3. The view-item command answers with an item of the caller's
    guild that carries the requested name and for which the caller has an
    ownership row, whenever there is one; otherwise, and only then, it
    fails with "Item either does not exist or you do not have it."  It
    never changes the store. *)
Theorem view_item_is_ownership_gated (uq : bool) (ctx : Context)
  (name : string) (s : Store) :
  let g := guild_id ctx in
  let u := m_id (author ctx) in
  (exists i,
     run uq (gacha_user_view_item ctx name) s = (Ok (ItemEmbed i), s) /\
     In i (items s) /\ i_guild_id i = g /\ i_name i = name /\ holds g u s i) \/
  (run uq (gacha_user_view_item ctx name) s = (Err item_not_found, s) /\
   forall i, In i (items s) -> i_guild_id i = g -> i_name i = name ->
             ~ holds g u s i).
Proof.
  intros g u. unfold gacha_user_view_item. cbn [run exec]. fold g u.
  destruct (find (fun i => (i_guild_id i =? g) && String.eqb (i_name i) name
                           && owned_by g u s i) (items s)) as [i|] eqn:Hf.
  - left. exists i. apply find_some in Hf as [Hin Hok].
    apply view_item_filter in Hok. tauto.
  - right. split; [reflexivity|].
    intros i Hin Hg Hn Hh.
    pose proof (find_none _ _ Hf i Hin) as Hno. simpl in Hno.
    assert (Hyes : (i_guild_id i =? g) && String.eqb (i_name i) name
                   && owned_by g u s i = true)
      by (apply view_item_filter; auto).
    congruence.
Qed.

(** X2. What a caller has just drawn, the caller can view: after
    a draw that goes through, the view-item command with the drawn item's
    name succeeds for the same caller, with an item of that name which the
    caller holds, and changes nothing. *)
Theorem drawn_item_can_be_viewed (uq : bool) (randint : Z -> Z -> Z)
  (ctx : Context) (config : Config) (s : Store) :
  role_set config = true ->
  gacha_enabled config = true ->
  has_role (author ctx) (player_role config) = true ->
  gacha_currency_cost config <= balance_of (guild_id ctx) (m_id (author ctx)) s ->
  player_keys_unique s ->
  item_keys_unique s ->
  randint_in_range randint ->
  eligible (guild_id ctx) s <> [] ->
  exists e s' i,
    run uq (gacha_draw randint ctx config) s = (Ok (ItemEmbed (taken e)), s') /\
    run uq (gacha_user_view_item ctx (i_name e)) s' = (Ok (ItemEmbed i), s') /\
    i_name i = i_name e /\
    i_guild_id i = guild_id ctx /\
    holds (guild_id ctx) (m_id (author ctx)) s' i /\
    holds (guild_id ctx) (m_id (author ctx)) s' (taken e).
Proof.
  intros Hrole Hon Hhas Hfunds Hpk Hik Hrand Hne.
  destruct (run_draw_through uq randint ctx config s
              Hrole Hon Hhas Hfunds Hrand Hne) as (e & He & Hrun).
  pose proof (proj1 (eligible_In _ _ _) He) as (Hein & Hg & _).
  destruct (ensure_player_spec (guild_id ctx) (m_id (author ctx)) s)
    as (Hin & Hisp & _ & Hitems & _).
  set (g := guild_id ctx) in *. set (u := m_id (author ctx)) in *.
  set (p := fst (ensure_player g u s)) in *.
  set (s1 := snd (ensure_player g u s)) in *.
  set (cost := gacha_currency_cost config) in *.
  set (s' := drawn e p cost s1) in *.
  unfold is_player in Hisp. apply andb_true_iff in Hisp as [Hpg Hpu].
  apply Z.eqb_eq in Hpg, Hpu.
  assert (Hid : i_id (taken e) = i_id e).
  { unfold taken. destruct (negb (amount e =? -1)); reflexivity. }
  assert (Hname : i_name (taken e) = i_name e).
  { unfold taken. destruct (negb (amount e =? -1)); reflexivity. }
  assert (Hguild : i_guild_id (taken e) = g).
  { unfold taken. destruct (negb (amount e =? -1)); exact Hg. }
  assert (Htin : In (taken e) (items s')).
  { unfold s', drawn. simpl items. rewrite Hitems.
    rewrite (items_after_draw e (items s) Hik Hein).
    apply in_map_iff. exists e. split; [|exact Hein]. now rewrite Z.eqb_refl. }
  assert (Hholds : holds g u s' (taken e)).
  { exists (mkLink (i_id e) (p_id p)), (decrement (p_id p) cost p).
    unfold s', drawn. simpl links. simpl players. repeat split.
    - apply in_or_app. right. now left.
    - now apply in_map.
    - simpl. congruence.
    - unfold decrement. now rewrite Z.eqb_refl.
    - unfold decrement. now rewrite Z.eqb_refl.
    - unfold decrement. now rewrite Z.eqb_refl. }
  exists e, s'.
  unfold gacha_user_view_item. cbn [run exec]. fold g u.
  destruct (find (fun i => (i_guild_id i =? g) && String.eqb (i_name i) (i_name e)
                           && owned_by g u s' i) (items s')) as [i|] eqn:Hf.
  - exists i. apply find_some in Hf as [_ Hok].
    apply view_item_filter in Hok as (Hig & Hin' & Hih).
    repeat split; auto.
  - exfalso. pose proof (find_none _ _ Hf (taken e) Htin) as Hno.
    simpl in Hno.
    assert (Hyes : (i_guild_id (taken e) =? g)
                   && String.eqb (i_name (taken e)) (i_name e)
                   && owned_by g u s' (taken e) = true)
      by (apply view_item_filter; auto).
    congruence.
Qed.

Lemma drawn_item_can_be_viewed_witness :
  exists e s' i,
    run true (gacha_draw Sample.highest Sample.as_bob Sample.config)
        Sample.store = (Ok (ItemEmbed (taken e)), s') /\
    run true (gacha_user_view_item Sample.as_bob (i_name e)) s'
      = (Ok (ItemEmbed i), s') /\
    i_name i = i_name e /\
    i_guild_id i = 100 /\
    holds 100 2 s' i /\
    holds 100 2 s' (taken e).
Proof.
  apply (drawn_item_can_be_viewed true Sample.highest Sample.as_bob
           Sample.config Sample.store);
    first [ reflexivity
          | (vm_compute; discriminate)
          | (intros lo hi H; unfold Sample.highest; lia)
          | (unfold player_keys_unique, item_keys_unique; simpl;
             repeat constructor; simpl; intuition discriminate) ].
Defined.

(** ** Currency is never created by a command run on its own *)

Lemma run_keeps_player_keys (uq : bool) {A : Type} (p : Prog A) (s : Store) :
  player_keys_unique s -> player_keys_unique (snd (run uq p s)).
Proof.
  revert s. induction p as [a|e|X q k IH]; intros s Hnd; simpl; try exact Hnd.
  pose proof (exec_keeps_player_keys uq q s Hnd) as Hk.
  destruct (exec uq q s) as [[x|e] s']; simpl in *; auto.
Qed.

Lemma total_after_overwrite (q r : GachaPlayer) (l : list GachaPlayer) :
  NoDup (map p_id l) -> In r l -> p_id q = p_id r ->
  fold_right (fun p acc => currency_amount p + acc) 0 (map (overwrite q) l)
  = fold_right (fun p acc => currency_amount p + acc) 0 l
    - currency_amount r + currency_amount q.
Proof.
  intros Hnd Hr Hid.
  induction l as [|a l IH]; simpl; [contradiction|].
  inversion Hnd as [|? ? Hnotin Hnd']; subst.
  destruct Hr as [Hr|Hr].
  - subst a. unfold overwrite at 1. rewrite Hid, Z.eqb_refl.
    assert (Hrest : map (overwrite q) l = l).
    { clear IH Hnd Hnd'. induction l as [|b l IHl]; simpl; [reflexivity|].
      unfold overwrite at 1.
      destruct (p_id b =? p_id q) eqn:E.
      - apply Z.eqb_eq in E. exfalso. apply Hnotin. left. congruence.
      - f_equal. apply IHl. intros Hin. apply Hnotin. now right. }
    rewrite Hrest. lia.
  - unfold overwrite at 1.
    destruct (p_id a =? p_id q) eqn:E.
    + apply Z.eqb_eq in E. exfalso. apply Hnotin.
      rewrite E, Hid. now apply in_map.
    + rewrite (IH Hnd' Hr). lia.
Qed.

Lemma total_after_commit (amount : Z) (p rp : GachaPlayer) (s : Store) :
  player_keys_unique s -> In p (players s) -> In rp (players s) ->
  total_currency (debited amount p (credited amount rp s)) =
  if p_id p =? p_id rp then total_currency s - amount else total_currency s.
Proof.
  intros Hnd Hp Hrp.
  set (rp' := with_currency rp (currency_amount rp + amount)).
  set (p' := with_currency p (currency_amount p - amount)).
  assert (Hc : total_currency (credited amount rp s)
               = total_currency s + amount).
  { unfold total_currency, credited. simpl players. fold rp'.
    rewrite (total_after_overwrite rp' rp (players s) Hnd Hrp eq_refl).
    simpl. lia. }
  assert (Hnd' : NoDup (map p_id (players (credited amount rp s)))).
  { unfold credited. simpl players. rewrite overwrite_keeps_ids. exact Hnd. }
  assert (Hr : In (overwrite rp' p) (players (credited amount rp s))).
  { unfold credited. simpl players. fold rp'. now apply in_map. }
  unfold total_currency at 1.
  change (players (debited amount p (credited amount rp s)))
    with (map (overwrite p') (players (credited amount rp s))).
  rewrite (total_after_overwrite p' (overwrite rp' p) _ Hnd' Hr)
    by (rewrite overwrite_keeps_id; reflexivity).
  fold (total_currency (credited amount rp s)). rewrite Hc.
  unfold overwrite. simpl p_id.
  destruct (p_id p =? p_id rp) eqn:E.
  - apply Z.eqb_eq in E.
    pose proof (unique_key_row _ p rp Hnd Hp Hrp E) as Heq.
    unfold p', rp', with_currency. rewrite Heq. simpl. lia.
  - unfold p', with_currency. simpl. lia.
Qed.

Lemma total_fresh_row (g u : Z) (s : Store) :
  total_currency
    (mkStore (players s ++ [mkPlayer (next_id (map p_id (players s))) g u 0])
             (items s) (links s)) = total_currency s.
Proof.
  unfold total_currency. simpl. rewrite fold_right_app. reflexivity.
Qed.

Lemma give_from_total (uq : bool) (ctx : Context) (config : Config)
  (recipient : Member) (amount : Z) (p : GachaPlayer) (s : Store) :
  player_keys_unique s -> In p (players s) -> 0 <= amount ->
  total_currency (snd (run uq (give_from ctx config recipient amount p) s))
    <= total_currency s.
Proof.
  intros Hnd Hp H0. unfold give_from.
  destruct (currency_amount p <? amount); [simpl; lia|].
  cbn [run exec].
  destruct (find_player (guild_id ctx) (m_id recipient) s) as [rp|] eqn:Hf.
  { apply find_player_In in Hf as [Hrp _].
    rewrite (run_give_commit uq amount p rp s Hp Hrp). simpl snd.
    rewrite (total_after_commit amount p rp s Hnd Hp Hrp).
    destruct (p_id p =? p_id rp); lia. }
  destruct (has_role recipient (player_role config)); cbn [negb run];
    [|simpl; lia].
  destruct (exec uq (PlayerCreate (guild_id ctx) (m_id (author ctx))) s)
    as [[rp|e'] s1] eqn:Hc; simpl in Hc.
  - assert (Hs1 : rp = mkPlayer (next_id (map p_id (players s)))
                                (guild_id ctx) (m_id (author ctx)) 0 /\
                  s1 = mkStore (players s ++ [rp]) (items s) (links s)).
    { destruct uq, (find_player (guild_id ctx) (m_id (author ctx)) s);
        inversion Hc; auto. }
    destruct Hs1 as [Hrp ->].
    rewrite run_give_commit;
      [| simpl; apply in_or_app; now left
       | simpl; apply in_or_app; right; now left].
    simpl snd. rewrite total_after_commit.
    + subst rp. rewrite total_fresh_row.
      destruct (p_id p =? _); lia.
    + subst rp. now apply player_keys_unique_fresh.
    + simpl. apply in_or_app. now left.
    + simpl. apply in_or_app. right. now left.
  - destruct uq, (find_player (guild_id ctx) (m_id (author ctx)) s);
      inversion Hc; subst; simpl; lia.
Qed.

Lemma give_total (uq : bool) (ctx : Context) (config : Config)
  (recipient : Member) (amount : Z) (s : Store) :
  player_keys_unique s -> 0 <= amount ->
  total_currency
    (snd (run uq (gacha_give_currency ctx config recipient amount) s))
    <= total_currency s.
Proof.
  intros Hnd Hb. unfold gacha_give_currency.
  destruct (negb (role_set config) || negb (gacha_enabled config));
    [simpl; lia|]. cbn [run exec].
  destruct (find_player (guild_id ctx) (m_id (author ctx)) s) as [p|] eqn:Hf.
  { apply find_player_In in Hf as [Hp _].
    apply give_from_total; auto; lia. }
  destruct (has_role (author ctx) (player_role config)); cbn [negb run];
    [|simpl; lia].
  rewrite (exec_create_absent uq _ _ s Hf).
  pose proof (total_fresh_row (guild_id ctx) (m_id (author ctx)) s) as Hsame.
  etransitivity; [apply give_from_total | rewrite Hsame; lia].
  - now apply player_keys_unique_fresh.
  - simpl. apply in_or_app. right. now left.
  - lia.
Qed.

Lemma draw_total (uq : bool) (randint : Z -> Z -> Z) (ctx : Context)
  (config : Config) (s : Store) :
  player_keys_unique s ->
  0 <= gacha_currency_cost config ->
  total_currency (snd (run uq (gacha_draw randint ctx config) s))
    <= total_currency s.
Proof.
  intros Hnd Hcost.
  destruct (role_set config) eqn:Hrole;
    [|unfold gacha_draw; rewrite Hrole; simpl; lia].
  destruct (gacha_enabled config) eqn:Hon;
    [|unfold gacha_draw; rewrite Hrole, Hon; simpl; lia].
  destruct (has_role (author ctx) (player_role config)) eqn:Hhas;
    [|unfold gacha_draw; rewrite Hrole, Hon, Hhas; simpl; lia].
  pose proof (player_keys_unique_ensure (guild_id ctx) (m_id (author ctx)) s Hnd)
    as Hnd1.
  pose proof (total_currency_ensure (guild_id ctx) (m_id (author ctx)) s) as Ht1.
  destruct (ensure_player_spec (guild_id ctx) (m_id (author ctx)) s)
    as (Hin & _ & Hbal & _).
  destruct (Z_le_gt_dec (gacha_currency_cost config)
              (balance_of (guild_id ctx) (m_id (author ctx)) s)) as [Hle|Hgt].
  - rewrite (run_draw_checked uq randint ctx config s Hrole Hon Hhas Hle).
    cbv zeta.
    destruct (Z.of_nat _ =? 0); [simpl; lia|].
    destruct (picked _ _ _) as [e|]; [|simpl; lia].
    simpl snd. unfold total_currency at 1, drawn. simpl players.
    rewrite (total_after_decrement _ _ _ Hnd1 Hin).
    fold (total_currency (snd (ensure_player (guild_id ctx)
                                 (m_id (author ctx)) s))). lia.
  - unfold gacha_draw. rewrite Hrole, Hon, Hhas. cbn [negb orb].
    rewrite run_get_or_create, Hbal.
    assert (Hlt : (balance_of (guild_id ctx) (m_id (author ctx)) s
                   <? gacha_currency_cost config) = true)
      by (apply Z.ltb_lt; lia).
    rewrite Hlt. simpl. lia.
Qed.

Lemma handle_total (uq : bool) (c : Command) (s : Store) :
  player_keys_unique s -> cost_nonneg c -> amount_as_declared c ->
  total_currency (snd (run uq (handle c) s)) <= total_currency s.
Proof.
  intros Hnd Hc Hamt.
  destruct c as [randint ctx config|ctx config recipient amount|ctx config|ctx name];
    simpl handle.
  - now apply draw_total.
  - apply give_total; [exact Hnd|].
    unfold amount_as_declared, amount_min_value in Hamt. lia.
  - unfold gacha_profile.
    destruct (negb (role_set config) || negb (gacha_enabled config));
      [simpl; lia|]. cbn [run exec].
    destruct (find_player (guild_id ctx) (m_id (author ctx)) s) eqn:Hf;
      [simpl; lia|].
    destruct (has_role (author ctx) (player_role config)); cbn [negb run];
      [|simpl; lia].
    rewrite (exec_create_absent uq _ _ s Hf). simpl snd.
    rewrite total_fresh_row. lia.
  - unfold gacha_user_view_item. cbn [run exec].
    destruct (find _ (items s)); simpl; lia.
Qed.

(** X11. There is no way to create currency in a history of commands
    each run to completion before the next: with unique player keys, draws
    that cost at least 0 and transfers whose amount is within the declared
    range 1..999, the sum of all balances after the history is at most
    what it was before.  (The handler does not check the range itself: on
    a negative amount it would add to the total.) *)
Theorem history_never_creates_currency (uq : bool) (cs : list Command)
  (s : Store) :
  player_keys_unique s ->
  Forall cost_nonneg cs ->
  Forall amount_as_declared cs ->
  total_currency (run_history uq cs s) <= total_currency s.
Proof.
  intros Hnd Hcs Hamts. revert s Hnd. unfold run_history.
  induction cs as [|c cs IH]; intros s Hnd; simpl; [lia|].
  inversion Hcs as [|? ? Hc Hcs']; subst.
  inversion Hamts as [|? ? Hamt Hamts']; subst.
  pose proof (handle_total uq c s Hnd Hc Hamt) as Hstep.
  pose proof (run_keeps_player_keys uq (handle c) s Hnd) as Hnd'.
  specialize (IH Hcs' Hamts' _ Hnd'). lia.
Qed.

Lemma history_never_creates_currency_witness :
  total_currency
    (run_history true
       [Draw Sample.lowest Sample.as_alice Sample.config;
        Transfer Sample.as_alice Sample.config Sample.bob 5;
        Transfer Sample.as_bob Sample.config Sample.bob 3;
        GetProfile Sample.as_carol Sample.config]
       Sample.store)
  <= total_currency Sample.store.
Proof.
  apply (history_never_creates_currency true).
  - unfold player_keys_unique. simpl.
    repeat constructor; simpl; intuition discriminate.
  - repeat constructor; simpl; lia.
  - repeat constructor; unfold amount_min_value, amount_max_value; lia.
Defined.

Lemma give_between_existing_rows_witness :
  exists s',
    run true (gacha_give_currency Sample.as_alice Sample.config Sample.bob 5)
        Sample.store = (Ok (GaveCurrency 5), s') /\
    balance_of 100 1 s' = 25 - 5 /\
    balance_of 100 2 s' = 10 + 5 /\
    total_currency s' = total_currency Sample.store.
Proof.
  apply (give_between_existing_rows true Sample.as_alice Sample.config
           Sample.bob 5 Sample.store
           (mkPlayer 1 100 1 25) (mkPlayer 2 100 2 10));
    first [ reflexivity | lia | discriminate
          | (vm_compute; discriminate)
          | (unfold player_keys_unique; simpl; repeat constructor; simpl;
             intuition discriminate) ].
Defined.

(** ** Entry checks and refusals *)

(** X8. With the feature switched off, or with no player role set for
    the guild (none, or the id 0, which Python takes for false), the draw,
    the profile and the give-currency handlers, once they have the
    configuration, are the bare raise of "Gacha is not enabled in this
    server.": they issue no query on the player, item or ownership tables
    and the store is untouched.  With the feature on, the same holds of a
    draw by a caller without the player role, with "You do not have the
    Player role.", whether or not the caller has a row. *)
Theorem entry_checks_refuse_untouched (uq : bool) (randint : Z -> Z -> Z)
  (ctx : Context) (config : Config) (recipient : Member) (amount : Z)
  (s : Store) :
  (role_set config = false \/ gacha_enabled config = false ->
     (gacha_draw randint ctx config = Raise not_enabled /\
      gacha_profile ctx config = Raise not_enabled /\
      gacha_give_currency ctx config recipient amount = Raise not_enabled) /\
     run uq (gacha_draw randint ctx config) s = (Err not_enabled, s) /\
     run uq (gacha_profile ctx config) s = (Err not_enabled, s) /\
     run uq (gacha_give_currency ctx config recipient amount) s
       = (Err not_enabled, s)) /\
  (role_set config = true -> gacha_enabled config = true ->
   has_role (author ctx) (player_role config) = false ->
     gacha_draw randint ctx config = Raise no_player_role /\
     run uq (gacha_draw randint ctx config) s = (Err no_player_role, s)) /\
  (player_role config = Some 0 -> role_set config = false).
Proof.
  split; [|split].
  - intros H.
    assert (Hb : negb (role_set config) || negb (gacha_enabled config) = true).
    { destruct H as [H|H]; rewrite H; simpl; [reflexivity | apply orb_true_r]. }
    unfold gacha_draw, gacha_profile, gacha_give_currency. rewrite Hb.
    repeat split.
  - intros Hrole Hon Hhas. unfold gacha_draw. rewrite Hrole, Hon, Hhas.
    split; reflexivity.
  - intros H. unfold role_set. rewrite H. reflexivity.
Qed.

Lemma entry_checks_refuse_untouched_witness :
  gacha_draw Sample.lowest Sample.as_alice (mkConfig (Some 0) true 10)
    = Raise not_enabled /\
  run true (gacha_profile Sample.as_alice (mkConfig (Some 7) false 10))
      Sample.store = (Err not_enabled, Sample.store) /\
  gacha_draw Sample.lowest Sample.as_dave Sample.config = Raise no_player_role /\
  run true (gacha_draw Sample.lowest Sample.as_dave Sample.config) Sample.store
    = (Err no_player_role, Sample.store).
Proof.
  split; [|split].
  - apply (proj1 (entry_checks_refuse_untouched true Sample.lowest
                    Sample.as_alice (mkConfig (Some 0) true 10)
                    Sample.bob 1 Sample.store)).
    left. reflexivity.
  - apply (proj1 (entry_checks_refuse_untouched true Sample.lowest
                    Sample.as_alice (mkConfig (Some 7) false 10)
                    Sample.bob 1 Sample.store)).
    right. reflexivity.
  - apply (proj1 (proj2 (entry_checks_refuse_untouched true Sample.lowest
                           Sample.as_dave Sample.config
                           Sample.bob 1 Sample.store))); reflexivity.
Defined.

(** X9. The profile command creates a row at most once: after
    a profile command that succeeded, the same command succeeds again with
    the same answer and leaves the store as the first one left it. *)
Theorem profile_twice (uq : bool) (ctx : Context) (config : Config)
  (s s1 : Store) (r : Reply) :
  run uq (gacha_profile ctx config) s = (Ok r, s1) ->
  run uq (gacha_profile ctx config) s1 = (Ok r, s1).
Proof.
  unfold gacha_profile.
  destruct (negb (role_set config) || negb (gacha_enabled config));
    [discriminate|]. cbn [run exec].
  destruct (find_player (guild_id ctx) (m_id (author ctx)) s) as [p|] eqn:Hf.
  - cbn [run]. intros H. inversion H; subst. rewrite Hf. reflexivity.
  - destruct (has_role (author ctx) (player_role config)); cbn [negb run];
      [|discriminate].
    rewrite (exec_create_absent uq _ _ s Hf). cbn [run].
    intros H. inversion H; subst; clear H.
    assert (Hnow : find_player (guild_id ctx) (m_id (author ctx))
              (mkStore (players s ++
                          [mkPlayer (next_id (map p_id (players s)))
                                    (guild_id ctx) (m_id (author ctx)) 0])
                       (items s) (links s))
            = Some (mkPlayer (next_id (map p_id (players s)))
                             (guild_id ctx) (m_id (author ctx)) 0)).
    { unfold find_player in *. simpl players.
      rewrite find_player_app, Hf, is_player_mk. reflexivity. }
    rewrite Hnow. reflexivity.
Qed.

Lemma profile_twice_witness :
  let first := run true (gacha_profile Sample.as_carol Sample.config)
                   Sample.store in
  fst first = Ok (ProfileEmbeds (mkPlayer 3 100 3 0)) /\
  run true (gacha_profile Sample.as_carol Sample.config) (snd first)
    = (Ok (ProfileEmbeds (mkPlayer 3 100 3 0)), snd first).
Proof.
  split; [reflexivity|].
  apply (profile_twice true Sample.as_carol Sample.config Sample.store).
  reflexivity.
Defined.

(** ** Give-currency: refusals *)

(** X6. The sender's balance is checked before the recipient
    is looked at: with the feature on and the amount within bounds, a
    sender whose balance is below the amount gets "You do not have enough
    currency to give." whoever the recipient is, and a sender who can pay
    but names a recipient with neither a row nor the player role gets "The
    recipient has no data for gacha."  In both cases no balance, item or
    ownership row changes. *)
Theorem give_refusals (uq : bool) (ctx : Context) (config : Config)
  (recipient : Member) (amount : Z) (s : Store) :
  role_set config = true ->
  gacha_enabled config = true ->
  1 <= amount <= 999 ->
  find_player (guild_id ctx) (m_id (author ctx)) s <> None \/
    has_role (author ctx) (player_role config) = true ->
  let g := guild_id ctx in
  let u := m_id (author ctx) in
  (balance_of g u s < amount ->
     exists s',
       run uq (gacha_give_currency ctx config recipient amount) s
         = (Err insufficient_funds_give, s') /\
       items s' = items s /\ links s' = links s /\
       forall g' u', balance_of g' u' s' = balance_of g' u' s) /\
  (amount <= balance_of g u s ->
   find_player g (m_id recipient) s = None ->
   has_role recipient (player_role config) = false ->
     run uq (gacha_give_currency ctx config recipient amount) s
       = (Err recipient_no_data, s)).
Proof.
  intros Hrole Hon Hamt Hsender g u.
  unfold gacha_give_currency. rewrite Hrole, Hon. cbn [negb orb run exec].
  fold g u. unfold balance_of.
  destruct (find_player g u s) as [p|] eqn:Hf.
  - split.
    + intros Hlow. exists s. unfold give_from.
      assert (Hlt : (currency_amount p <? amount) = true)
        by (apply Z.ltb_lt; exact Hlow).
      rewrite Hlt. cbn [run]. auto.
    + intros Hhigh Hnone Hnorole. unfold give_from.
      assert (Hge : (currency_amount p <? amount) = false)
        by (apply Z.ltb_ge; exact Hhigh).
      rewrite Hge. cbn [run exec]. fold g. rewrite Hnone, Hnorole.
      reflexivity.
  - destruct Hsender as [Hsome|Hhas]; [exfalso; apply Hsome; exact Hf|].
    rewrite Hhas. cbn [negb run].
    rewrite (exec_create_absent uq _ _ s Hf). split.
    + intros _. eexists. unfold give_from. simpl currency_amount.
      assert (Hlt : (0 <? amount) = true) by (apply Z.ltb_lt; lia).
      rewrite Hlt. cbn [run]. split; [reflexivity|].
      simpl. repeat split; auto.
      intros g' u'. apply (balance_of_fresh_row g u _ s g' u' Hf).
    + intros Hhigh. lia.
Qed.

Lemma give_refusals_witness :
  (exists s',
     run true (gacha_give_currency Sample.as_alice Sample.config
                 Sample.dave 999) Sample.store
       = (Err insufficient_funds_give, s') /\
     items s' = items Sample.store /\ links s' = links Sample.store /\
     forall g' u', balance_of g' u' s' = balance_of g' u' Sample.store) /\
  run true (gacha_give_currency Sample.as_alice Sample.config
              Sample.dave 5) Sample.store
    = (Err recipient_no_data, Sample.store).
Proof.
  split.
  - refine (proj1 (give_refusals true Sample.as_alice Sample.config
                     Sample.dave 999 Sample.store _ _ _ _) _);
      first [ reflexivity | lia | (right; reflexivity)
            | (vm_compute; reflexivity) ].
  - refine (proj2 (give_refusals true Sample.as_alice Sample.config
                     Sample.dave 5 Sample.store _ _ _ _) _ _ _);
      first [ reflexivity | lia | (right; reflexivity)
            | (vm_compute; discriminate) ].
Defined.

(** * Properties of [common/utils.py] *)

(** ** Chunking *)

Lemma chunks_concat {A : Type} (n m : nat) :
  forall l : list A,
    (List.length l <= m * n)%nat ->
    List.concat (map (fun k => firstn n (skipn (k * n) l)) (seq 0 m)) = l.
Proof.
  induction m as [|m IH]; intros l Hlen.
  - simpl in *. destruct l; [reflexivity | simpl in Hlen; lia].
  - cbn [seq map List.concat]. rewrite <- seq_shift, map_map.
    rewrite (map_ext _ (fun k => firstn n (skipn (k * n) (skipn n l)))).
    + rewrite IH.
      * simpl. apply firstn_skipn.
      * rewrite length_skipn. simpl in Hlen. lia.
    + intros k. rewrite skipn_skipn. f_equal. f_equal. simpl. lia.
Qed.

Lemma chunk_length {A : Type} (n k : nat) (l : list A) :
  List.length (firstn n (skipn (k * n) l))
  = Nat.min n (List.length l - k * n).
Proof. now rewrite length_firstn, length_skipn. Qed.

(** The count [range] arrives at, against the length it covers. *)
Lemma range_count (len : nat) (n : Z) :
  0 < n ->
  let m := Z.to_nat ((Z.of_nat len + n - 1) / n) in
  (len <= m * Z.to_nat n)%nat /\
  (forall k, (k < m)%nat -> (k * Z.to_nat n < len)%nat).
Proof.
  intros Hn m.
  pose proof (Z.mul_div_le (Z.of_nat len + n - 1) n Hn) as Hlo.
  pose proof (Z.mul_succ_div_gt (Z.of_nat len + n - 1) n Hn) as Hhi.
  assert (Hq : 0 <= (Z.of_nat len + n - 1) / n)
    by (apply Z.div_pos; lia).
  set (q := (Z.of_nat len + n - 1) / n) in *.
  assert (Hm : Z.of_nat m = q) by (unfold m; apply Z2Nat.id; exact Hq).
  split.
  - apply Nat2Z.inj_le. rewrite Nat2Z.inj_mul, Hm, Z2Nat.id by lia. nia.
  - intros k Hk. apply Nat2Z.inj_lt.
    rewrite Nat2Z.inj_mul, Z2Nat.id by lia.
    assert (Z.of_nat k <= q - 1) by lia. nia.
Qed.

Lemma py_range_from_zero (len : nat) (n : Z) :
  0 < n ->
  py_range 0 (Z.of_nat len) n =
  Some (map (fun k => Z.of_nat k * n)
            (seq 0 (Z.to_nat ((Z.of_nat len + n - 1) / n)))).
Proof.
  intros Hn. unfold py_range.
  assert (H0 : (n =? 0) = false) by (apply Z.eqb_neq; lia).
  assert (H1 : (0 <? n) = true) by (apply Z.ltb_lt; lia).
  rewrite H0, H1, Z.sub_0_r. reflexivity.
Qed.

Lemma py_slice_chunk {A : Type} (l : list A) (k : nat) (n : Z) :
  0 < n ->
  py_slice l (Z.of_nat k * n) (Z.of_nat k * n + n)
  = firstn (Z.to_nat n) (skipn (k * Z.to_nat n) l).
Proof.
  intros Hn. unfold py_slice. f_equal.
  - f_equal. lia.
  - f_equal. rewrite Z2Nat.inj_mul, Nat2Z.id by lia. reflexivity.
Qed.

(** Chunking a sequence from index 0 in steps of [n > 0]. *)
Lemma chunked (A : Type) (l : list A) (n : Z) :
  0 < n ->
  let chunks :=
    map (fun x => py_slice l x (x + n))
        (map (fun k => Z.of_nat k * n)
             (seq 0 (Z.to_nat ((Z.of_nat (List.length l) + n - 1) / n)))) in
  List.concat chunks = l /\
  Forall (fun c => (1 <= List.length c <= Z.to_nat n)%nat) chunks /\
  (forall k, (S k < List.length chunks)%nat ->
             List.length (nth k chunks []) = Z.to_nat n).
Proof.
  intros Hn.
  destruct (range_count (List.length l) n Hn) as [Hcover Hstart].
  set (m := Z.to_nat ((Z.of_nat (List.length l) + n - 1) / n)) in *.
  set (N := Z.to_nat n) in *.
  assert (HN : (0 < N)%nat) by (unfold N; lia).
  assert (Hshape :
    map (fun x => py_slice l x (x + n)) (map (fun k => Z.of_nat k * n) (seq 0 m))
    = map (fun k => firstn N (skipn (k * N) l)) (seq 0 m)).
  { rewrite map_map. apply map_ext. intros k. now apply py_slice_chunk. }
  cbv zeta. rewrite Hshape. split; [|split].
  - now apply chunks_concat.
  - apply Forall_forall. intros c Hc.
    apply in_map_iff in Hc as (k & <- & Hk). apply in_seq in Hk.
    rewrite chunk_length. specialize (Hstart k). lia.
  - intros k Hk. rewrite length_map, length_seq in Hk.
    rewrite (nth_indep _ [] (firstn N (skipn (0 * N) l)))
      by (rewrite length_map, length_seq; lia).
    rewrite (map_nth (fun k => firstn N (skipn (k * N) l)) (seq 0 m) 0%nat k).
    rewrite seq_nth by lia. simpl Nat.add.
    rewrite chunk_length. specialize (Hstart (S k) Hk). simpl in Hstart. lia.
Qed.

(** X14. [line_split] with a positive [split_by] cuts the lines
    into consecutive chunks that put together give the lines back, every
    chunk with at least one and at most [split_by] lines and every chunk
    but the last with exactly [split_by]; with [split_by = 0] it raises;
    with a negative [split_by] it returns no chunk at all, whatever the
    content. *)
Theorem line_split_chunks (splitlines : string -> list string)
  (content : string) (split_by : Z) :
  (split_by = 0 -> line_split splitlines content split_by = None) /\
  (split_by < 0 -> line_split splitlines content split_by = Some []) /\
  (0 < split_by ->
     exists chunks,
       line_split splitlines content split_by = Some chunks /\
       List.concat chunks = splitlines content /\
       Forall (fun c => (1 <= List.length c <= Z.to_nat split_by)%nat) chunks /\
       (forall k, (S k < List.length chunks)%nat ->
                  List.length (nth k chunks []) = Z.to_nat split_by)).
Proof.
  split; [|split].
  - intros ->. reflexivity.
  - intros Hneg. unfold line_split, py_range.
    assert (H0 : (split_by =? 0) = false) by (apply Z.eqb_neq; lia).
    assert (H1 : (0 <? split_by) = false) by (apply Z.ltb_ge; lia).
    rewrite H0, H1.
    set (L := Z.of_nat (List.length (splitlines content))).
    assert (Hc : Z.to_nat ((0 - L - split_by - 1) / - split_by) = 0%nat).
    { assert (HL : 0 <= L) by (unfold L; lia).
      destruct (Z_lt_le_dec (0 - L - split_by - 1) 0) as [Hlt|Hge].
      - assert ((0 - L - split_by - 1) / - split_by < 0)
          by (apply Z.div_lt_upper_bound; lia). lia.
      - rewrite Z.div_small by lia. reflexivity. }
    rewrite Hc. reflexivity.
  - intros Hpos. unfold line_split.
    rewrite (py_range_from_zero _ split_by Hpos).
    eexists. split; [reflexivity|].
    exact (chunked string (splitlines content) split_by Hpos).
Qed.

Lemma line_split_chunks_witness :
  let splitlines (content : string) := [content; content; content; content; content] in
  line_split splitlines "a"%string 0 = None /\
  line_split splitlines "a"%string (-2) = Some [] /\
  exists chunks,
    line_split splitlines "a"%string 2 = Some chunks /\
    List.concat chunks = splitlines "a"%string /\
    Forall (fun c => (1 <= List.length c <= Z.to_nat 2)%nat) chunks /\
    (forall k, (S k < List.length chunks)%nat ->
               List.length (nth k chunks []) = Z.to_nat 2).
Proof.
  intros splitlines.
  split; [|split].
  - apply (proj1 (line_split_chunks splitlines "a"%string 0)). reflexivity.
  - apply (proj1 (proj2 (line_split_chunks splitlines "a"%string (-2)))). lia.
  - apply (proj2 (proj2 (line_split_chunks splitlines "a"%string 2))). lia.
Defined.

(** X15. [string_split] cuts a string into consecutive parts
    that put together give the string back; every part has at least one
    and at most 1950 characters and every part but the last exactly 1950;
    the empty string has no part. *)
Theorem string_split_parts (Char : Type) (string : list Char) :
  List.concat (string_split string) = string /\
  Forall (fun c => (1 <= List.length c <= 1950)%nat) (string_split string) /\
  (forall k, (S k < List.length (string_split string))%nat ->
             List.length (nth k (string_split string) []) = 1950%nat) /\
  (string = [] -> string_split string = []).
Proof.
  assert (Hpos : 0 < 1950) by lia.
  unfold string_split. rewrite (py_range_from_zero _ 1950 Hpos).
  pose proof (chunked Char string 1950 Hpos) as (Hc & Hf & Hk).
  change (Z.to_nat 1950) with 1950%nat in Hf, Hk.
  repeat split; try assumption.
  intros ->. reflexivity.
Qed.

(** ** The error report *)

Lemma string_append_assoc (s1 s2 s3 : string) :
  String.append (String.append s1 s2) s3
  = String.append s1 (String.append s2 s3).
Proof.
  induction s1 as [|c s1 IH]; simpl; [reflexivity | now rewrite IH].
Qed.

Lemma concat_front (a sep x : string) (r : list string) :
  String.concat sep (String.append a x :: r)
  = String.append a (String.concat sep (x :: r)).
Proof.
  destruct r as [|y r]; simpl; [reflexivity|].
  apply string_append_assoc.
Qed.

Lemma set_last_some (f : string -> string) (c : list string) :
  c <> [] -> exists c', set_last f c = Some c' /\ c' <> [].
Proof.
  induction c as [|x c IH]; intros Hne; [congruence|].
  destruct c as [|y c].
  - exists [f x]. split; [reflexivity | discriminate].
  - destruct IH as (c' & Hc' & _); [discriminate|].
    exists (x :: c').
    change (set_last f (x :: y :: c))
      with (option_map (cons x) (set_last f (y :: c))).
    rewrite Hc'. split; [reflexivity | discriminate].
Qed.

Lemma concat_back (b sep : string) (c c' : list string) :
  set_last (fun x => String.append x b) c = Some c' ->
  String.concat sep c' = String.append (String.concat sep c) b.
Proof.
  revert c'. induction c as [|x c IH]; intros c' H; [discriminate|].
  destruct c as [|y c].
  - simpl in H. inversion H. reflexivity.
  - change (set_last (fun x => String.append x b) (x :: y :: c))
      with (option_map (cons x)
              (set_last (fun x => String.append x b) (y :: c))) in H.
    destruct (set_last (fun x => String.append x b) (y :: c)) as [r|] eqn:Hr;
      [|discriminate].
    simpl in H. inversion H; subst c'; clear H.
    specialize (IH r eq_refl).
    assert (Hne : r <> []).
    { destruct (set_last_some (fun x => String.append x b) (y :: c))
        as (r' & Hr' & Hn); [discriminate|]. congruence. }
    destruct r as [|z r]; [congruence|].
    change (String.concat sep (x :: z :: r))
      with (String.append x (String.append sep (String.concat sep (z :: r)))).
    change (String.concat sep (x :: y :: c))
      with (String.append x (String.append sep (String.concat sep (y :: c)))).
    rewrite IH, !string_append_assoc. reflexivity.
Qed.

Lemma fence_text (c : list string) :
  c <> [] ->
  exists c', fence c = Some c' /\ String.concat newline c' = fenced_text c.
Proof.
  intros Hne. destruct c as [|x r]; [congruence|].
  unfold fence. cbn [set_first].
  destruct (set_last_some
              (fun y => String.append y (String.append newline "```"))
              (String.append "```py" (String.append newline x) :: r))
    as (c' & Hc' & _); [discriminate|].
  exists c'. split; [exact Hc'|].
  rewrite (concat_back _ newline _ _ Hc'), !concat_front.
  unfold fenced_text. rewrite !string_append_assoc. reflexivity.
Qed.

Lemma fence_all_texts (chunks : list (list string)) :
  Forall (fun c => (1 <= List.length c)%nat) chunks ->
  exists chunks',
    fence_all chunks = Some chunks' /\
    map (String.concat newline) chunks' = map fenced_text chunks.
Proof.
  induction 1 as [|c chunks Hc _ IH].
  - exists []. split; reflexivity.
  - destruct IH as (rest & Hrest & Hmap).
    destruct (fence_text c) as (c' & Hc' & Htext).
    { destruct c; [simpl in Hc; lia | discriminate]. }
    exists (c' :: rest). cbn [fence_all]. rewrite Hc', Hrest.
    split; [reflexivity|]. simpl. now rewrite Htext, Hmap.
Qed.

(** X16. Building the error report never raises: every chunk
    of [line_split] has a first and a last line to put the fences on.  The
    owner gets one embed per chunk of 40 lines, in order, whose text is the
    chunk's lines joined by newlines inside an opening and a closing
    fence, after the "Error on: ..." line when the context has a message;
    the chunks put together are the lines of the error text. *)
Theorem error_report_is_fenced_chunks (splitlines : string -> list string)
  (error_str : string) (jump_url : option string) :
  exists chunks,
    line_split splitlines error_str 40 = Some chunks /\
    List.concat chunks = splitlines error_str /\
    error_messages splitlines error_str jump_url =
    Some (match jump_url with
          | Some url => [PlainText (String.append "Error on: " url)]
          | None => []
          end ++ map (fun c => ErrorEmbed (fenced_text c)) chunks).
Proof.
  assert (Hpos : 0 < 40) by lia.
  pose proof (chunked string (splitlines error_str) 40 Hpos) as (Hc & Hf & _).
  unfold error_messages, line_split.
  rewrite (py_range_from_zero _ 40 Hpos).
  eexists. split; [reflexivity|]. split; [exact Hc|].
  destruct (fence_all_texts _ (Forall_impl _ (fun c H => proj1 H) Hf))
    as (chunks' & Hfence & Htexts).
  rewrite Hfence.
  assert (Hmap : map (fun chunk => ErrorEmbed (String.concat newline chunk)) chunks'
                 = map (fun c => ErrorEmbed (fenced_text c))
                       (map (fun x => py_slice (splitlines error_str) x (x + 40))
                            (map (fun k => Z.of_nat k * 40)
                                 (seq 0 (Z.to_nat
                                    ((Z.of_nat (List.length (splitlines error_str))
                                      + 40 - 1) / 40)))))).
  { rewrite <- (map_map (String.concat newline) ErrorEmbed chunks').
    rewrite Htexts, map_map. reflexivity. }
  rewrite Hmap. destruct jump_url; reflexivity.
Qed.

(** ** Channel permissions *)

Lemma perm_in_bit (k perms : Z) :
  0 <= k -> perm_in (2 ^ k) perms = Z.testbit perms k.
Proof.
  intros Hk. unfold perm_in.
  destruct (Z.testbit perms k) eqn:T.
  - apply Z.eqb_eq. apply Z.bits_inj'. intros n Hn.
    rewrite Z.land_spec, Z.pow2_bits_eqb by exact Hk.
    destruct (Z.eqb_spec k n) as [->|_].
    + now rewrite T.
    + apply andb_false_r.
  - apply Z.eqb_neq. intros H.
    assert (Hbit : Z.testbit (Z.land perms (2 ^ k)) k = Z.testbit (2 ^ k) k)
      by (now rewrite H).
    rewrite Z.land_spec, Z.pow2_bits_true, T in Hbit by exact Hk.
    discriminate.
Qed.

(** X17. [valid_channel_check] hands the channel back exactly when it
    is messageable and the permissions have the view-channel (bit 10),
    read-message-history (16), send-messages (11) and embed-links (14) bits
    all set; it never hands back another channel; and a channel that is
    not messageable is refused with "Cannot send messages in ..." whatever
    the permissions are. *)
Theorem valid_channel_check_bits (channel : GuildChannel) (perms : Z) :
  (valid_channel_check channel perms = Ok channel <->
     is_messageable channel = true /\
     Z.testbit perms 10 = true /\ Z.testbit perms 16 = true /\
     Z.testbit perms 11 = true /\ Z.testbit perms 14 = true) /\
  (forall c, valid_channel_check channel perms = Ok c -> c = channel) /\
  (is_messageable channel = false ->
     valid_channel_check channel perms =
     Err (BadArgument (String.append "Cannot send messages in "
                         (String.append (channel_name channel) ".")))).
Proof.
  unfold valid_channel_check, VIEW_CHANNEL, READ_MESSAGE_HISTORY,
    SEND_MESSAGES, EMBED_LINKS.
  rewrite !perm_in_bit by lia.
  destruct (is_messageable channel); cbn [negb].
  2:{ repeat split; try discriminate; intuition discriminate. }
  destruct (Z.eqb_spec perms 0) as [->|Hnz].
  { rewrite !Z.bits_0. repeat split; try discriminate; intuition discriminate. }
  destruct (Z.testbit perms 10); cbn [negb];
    [|repeat split; try discriminate; intuition discriminate].
  destruct (Z.testbit perms 16); cbn [negb];
    [|repeat split; try discriminate; intuition discriminate].
  destruct (Z.testbit perms 11); cbn [negb];
    [|repeat split; try discriminate; intuition discriminate].
  destruct (Z.testbit perms 14); cbn [negb];
    [|repeat split; try discriminate; intuition discriminate].
  repeat split; auto; try discriminate. intros c H. now inversion H.
Qed.

Lemma valid_channel_check_bits_witness :
  valid_channel_check (mkChannel true "general") 84992
    = Ok (mkChannel true "general") /\
  valid_channel_check (mkChannel false "voice") 84992
    = Err (BadArgument "Cannot send messages in voice.").
Proof.
  split.
  - apply (proj1 (valid_channel_check_bits (mkChannel true "general") 84992)).
    repeat split.
  - apply (proj2 (proj2 (valid_channel_check_bits (mkChannel false "voice")
                           84992))).
    reflexivity.
Defined.

(** ** Embed limits *)

Lemma too_long_false (limit : Z) (text : option string) :
  too_long limit text = false <-> text_within limit text.
Proof.
  unfold too_long, text_within. destruct text as [t|].
  - rewrite Z.ltb_ge. split.
    + intros H t' Ht. inversion Ht; subst. exact H.
    + intros H. now apply H.
  - split; [intros _ t Ht; discriminate | reflexivity].
Qed.

Lemma fields_within_iff (fields : list EmbedField) :
  fields_within fields = true <->
  Forall (fun field =>
            Z.of_nat (String.length (field_name field)) <= 1024 /\
            Z.of_nat (String.length (field_value field)) <= 2048) fields.
Proof.
  induction fields as [|f fields IH]; simpl.
  - split; [constructor | reflexivity].
  - destruct (Z.ltb_spec 1024 (Z.of_nat (String.length (field_name f)))) as [H1|H1].
    { split; [discriminate|]. intros H. inversion H; subst. lia. }
    destruct (Z.ltb_spec 2048 (Z.of_nat (String.length (field_value f)))) as [H2|H2].
    { split; [discriminate|]. intros H. inversion H; subst. lia. }
    rewrite IH. split.
    + intros H. constructor; auto.
    + intros H. now inversion H.
Qed.

(** X18. For an embed whose author, if it has one, carries a name and
    whose footer, if it has one, carries a text, [embed_check] answers
    [True] exactly when the embed is within all of its limits: total
    length at most 6000, title at most 256, description at most 4096,
    author name at most 256, footer text at most 2048, at most 25 fields,
    and every field with a name of at most 1024 and a value of at most
    2048 characters; an absent title, description, author or footer is
    within its limit. *)
Theorem embed_check_limits (embed : Embed) :
  embed_check embed = true <-> embed_within_limits embed.
Proof.
  unfold embed_check, embed_within_limits.
  destruct (Z.ltb_spec 6000 (embed_len embed)) as [H0|H0].
  { split; [discriminate | intros (H & _); lia]. }
  destruct (too_long 256 (embed_title embed)) eqn:Ht.
  { split; [discriminate|]. intros (_ & H & _).
    apply too_long_false in H. congruence. }
  destruct (too_long 4096 (embed_description embed)) eqn:Hd.
  { split; [discriminate|]. intros (_ & _ & H & _).
    apply too_long_false in H. congruence. }
  apply too_long_false in Ht, Hd.
  assert (Hauthor :
    match embed_author embed with
    | Some a => too_long 256 (Some (author_name a))
    | None => false
    end = false <->
    forall a, embed_author embed = Some a ->
              Z.of_nat (String.length (author_name a)) <= 256).
  { destruct (embed_author embed) as [a|]; simpl.
    - rewrite Z.ltb_ge. split.
      + intros H a' Ha. inversion Ha; subst. exact H.
      + intros H. now apply H.
    - split; [intros _ a Ha; discriminate | reflexivity]. }
  assert (Hfooter :
    match embed_footer embed with
    | Some f => too_long 2048 (Some (footer_text f))
    | None => false
    end = false <->
    forall f, embed_footer embed = Some f ->
              Z.of_nat (String.length (footer_text f)) <= 2048).
  { destruct (embed_footer embed) as [f|]; simpl.
    - rewrite Z.ltb_ge. split.
      + intros H f' Hf. inversion Hf; subst. exact H.
      + intros H. now apply H.
    - split; [intros _ f Hf; discriminate | reflexivity]. }
  destruct (match embed_author embed with
            | Some a => too_long 256 (Some (author_name a))
            | None => false
            end) eqn:Ha.
  { split; [discriminate|]. intros (_ & _ & _ & H & _).
    apply Hauthor in H. discriminate. }
  destruct (match embed_footer embed with
            | Some f => too_long 2048 (Some (footer_text f))
            | None => false
            end) eqn:Hf.
  { split; [discriminate|]. intros (_ & _ & _ & _ & H & _).
    apply Hfooter in H. discriminate. }
  destruct (Z.ltb_spec 25 (Z.of_nat (List.length (embed_fields embed))))
    as [Hn|Hn].
  { split; [discriminate | intros (_ & _ & _ & _ & _ & H & _); lia]. }
  rewrite fields_within_iff. split.
  - intros H. repeat split; auto.
    + now apply Hauthor.
    + now apply Hfooter.
  - intros H. apply H.
Qed.

(** ** Giving needs a row *)

(** X7. A sender who has no row cannot give anything: whatever the
    recipient and the configuration, for every amount of at least 1 (the
    declared minimum) the command fails, and no balance, item or ownership
    row changes.  (A sender with the player role gets a fresh row with
    balance 0, which is below every such amount.) *)
Theorem sender_without_row_cannot_give (uq : bool) (ctx : Context)
  (config : Config) (recipient : Member) (amount : Z) (s : Store) :
  find_player (guild_id ctx) (m_id (author ctx)) s = None ->
  1 <= amount ->
  exists e s',
    run uq (gacha_give_currency ctx config recipient amount) s = (Err e, s') /\
    items s' = items s /\ links s' = links s /\
    forall g u, balance_of g u s' = balance_of g u s.
Proof.
  intros Hnone Hb.
  assert (Hfails : exists e s',
            run uq (gacha_give_currency ctx config recipient amount) s
            = (Err e, s')).
  { unfold gacha_give_currency.
    destruct (negb (role_set config) || negb (gacha_enabled config));
      [eexists; eexists; reflexivity|].
    cbn [run exec]. rewrite Hnone.
    destruct (has_role (author ctx) (player_role config)); cbn [negb run];
      [|eexists; eexists; reflexivity].
    rewrite (exec_create_absent uq _ _ s Hnone).
    unfold give_from. simpl currency_amount.
    assert (Hlt : (0 <? amount) = true) by (apply Z.ltb_lt; lia).
    rewrite Hlt. eexists; eexists; reflexivity. }
  destruct Hfails as (e & s' & Hrun).
  exists e, s'. split; [exact Hrun|].
  exact (run_give_failure uq ctx config recipient amount s s' e Hrun).
Qed.

Lemma sender_without_row_cannot_give_witness :
  exists e s',
    run true (gacha_give_currency Sample.as_carol Sample.config
                Sample.alice 1) Sample.store = (Err e, s') /\
    items s' = items Sample.store /\ links s' = links Sample.store /\
    forall g u, balance_of g u s' = balance_of g u Sample.store.
Proof.
  apply (sender_without_row_cannot_give true Sample.as_carol Sample.config
           Sample.alice 1 Sample.store); [reflexivity | lia].
Defined.

(** ** Guilds do not see each other *)

Lemma untouched_refl (g : Z) (s : Store) : other_guilds_untouched g s s.
Proof. intros g' _. split; reflexivity. Qed.

Lemma untouched_trans (g : Z) (s1 s2 s3 : Store) :
  other_guilds_untouched g s1 s2 -> other_guilds_untouched g s2 s3 ->
  other_guilds_untouched g s1 s3.
Proof.
  intros H12 H23 g' Hg'. destruct (H12 g' Hg') as [Hp Hi].
  destruct (H23 g' Hg') as [Hp' Hi']. split; congruence.
Qed.

Lemma filter_map_fixed {A : Type} (Q : A -> bool) (f : A -> A) (l : list A) :
  (forall x, In x l -> Q (f x) = Q x) ->
  (forall x, In x l -> Q x = true -> f x = x) ->
  filter Q (map f l) = filter Q l.
Proof.
  induction l as [|a l IH]; intros Hq Hfix; simpl; [reflexivity|].
  rewrite (Hq a (or_introl eq_refl)).
  destruct (Q a) eqn:E.
  - rewrite (Hfix a (or_introl eq_refl) E). f_equal.
    apply IH; intros x Hx; [apply Hq | apply Hfix]; now right.
  - apply IH; intros x Hx; [apply Hq | apply Hfix]; now right.
Qed.

Lemma untouched_fresh (g u id c : Z) (s : Store) :
  other_guilds_untouched g s
    (mkStore (players s ++ [mkPlayer id g u c]) (items s) (links s)).
Proof.
  intros g' Hg'. simpl. split; [|reflexivity].
  rewrite filter_app. simpl.
  assert (E : (g =? g') = false) by (apply Z.eqb_neq; congruence).
  rewrite E. apply app_nil_r.
Qed.

Lemma untouched_ensure (g u : Z) (s : Store) :
  other_guilds_untouched g s (snd (ensure_player g u s)).
Proof.
  unfold ensure_player. destruct (find_player g u s); simpl.
  - apply untouched_refl.
  - apply untouched_fresh.
Qed.

Lemma untouched_overwrite (g : Z) (q r : GachaPlayer) (s : Store) :
  player_keys_unique s -> In r (players s) -> p_id q = p_id r ->
  p_guild_id r = g -> p_guild_id q = g ->
  other_guilds_untouched g s
    (mkStore (map (overwrite q) (players s)) (items s) (links s)).
Proof.
  intros Hnd Hr Hid Hrg Hqg g' Hg'. simpl. split; [|reflexivity].
  assert (Hrow : forall x, In x (players s) -> p_id x = p_id q ->
                           (p_guild_id x =? g') = false).
  { intros x Hx E. apply Z.eqb_neq.
    rewrite (unique_key_row _ x r Hnd Hx Hr) by congruence. congruence. }
  apply filter_map_fixed; intros x Hx; unfold overwrite;
    destruct (p_id x =? p_id q) eqn:E; try reflexivity;
    apply Z.eqb_eq in E.
  - rewrite (Hrow x Hx E). apply Z.eqb_neq. congruence.
  - intros Hq. rewrite (Hrow x Hx E) in Hq. discriminate.
Qed.

Lemma untouched_drawn (g c : Z) (e : GachaItem) (p : GachaPlayer) (s : Store) :
  player_keys_unique s -> item_keys_unique s ->
  In p (players s) -> p_guild_id p = g ->
  In e (items s) -> i_guild_id e = g ->
  other_guilds_untouched g s (drawn e p c s).
Proof.
  intros Hpk Hik Hp Hpg He Heg g' Hg'. unfold drawn. simpl. split.
  - apply filter_map_fixed; intros x Hx; unfold decrement;
      destruct (p_id x =? p_id p) eqn:E; try reflexivity.
    intros Hq. apply Z.eqb_eq in E.
    rewrite (unique_key_row _ x p Hpk Hx Hp E) in Hq.
    apply Z.eqb_eq in Hq. congruence.
  - destruct (negb (amount e =? -1)); [|reflexivity].
    apply filter_map_fixed; intros x Hx; unfold set_amount;
      destruct (i_id x =? i_id e) eqn:E; try reflexivity.
    intros Hq. apply Z.eqb_eq in E.
    rewrite (unique_item_key _ x e Hik Hx He E) in Hq.
    apply Z.eqb_eq in Hq. congruence.
Qed.

Lemma is_player_guild (g u : Z) (p : GachaPlayer) :
  is_player g u p = true -> p_guild_id p = g.
Proof.
  unfold is_player. intros H. apply andb_true_iff in H as [H _].
  now apply Z.eqb_eq.
Qed.

Lemma untouched_commit (g amount : Z) (p rp : GachaPlayer) (s : Store) :
  player_keys_unique s -> In p (players s) -> In rp (players s) ->
  p_guild_id p = g -> p_guild_id rp = g ->
  other_guilds_untouched g s (debited amount p (credited amount rp s)).
Proof.
  intros Hnd Hp Hrp Hpg Hrpg.
  apply (untouched_trans g s (credited amount rp s)).
  - unfold credited. apply (untouched_overwrite g _ rp); auto.
  - unfold debited.
    apply (untouched_overwrite g _
             (overwrite (with_currency rp (currency_amount rp + amount)) p)
             (credited amount rp s)).
    + unfold player_keys_unique, credited. simpl.
      rewrite overwrite_keeps_ids. exact Hnd.
    + unfold credited. simpl. now apply in_map.
    + rewrite overwrite_keeps_id. reflexivity.
    + unfold overwrite. destruct (p_id p =? _); simpl; assumption.
    + simpl. exact Hpg.
Qed.

Lemma give_from_untouched (uq : bool) (ctx : Context) (config : Config)
  (recipient : Member) (amount : Z) (p : GachaPlayer) (s : Store) :
  player_keys_unique s -> In p (players s) -> p_guild_id p = guild_id ctx ->
  other_guilds_untouched (guild_id ctx) s
    (snd (run uq (give_from ctx config recipient amount p) s)).
Proof.
  intros Hnd Hp Hpg. unfold give_from.
  destruct (currency_amount p <? amount); [apply untouched_refl|].
  cbn [run exec].
  destruct (find_player (guild_id ctx) (m_id recipient) s) as [rp|] eqn:Hf.
  { apply find_player_In in Hf as [Hrp Hisrp].
    rewrite (run_give_commit uq amount p rp s Hp Hrp). simpl snd.
    apply untouched_commit; auto. now apply is_player_guild in Hisrp. }
  destruct (has_role recipient (player_role config)); cbn [negb run];
    [|apply untouched_refl].
  destruct (exec uq (PlayerCreate (guild_id ctx) (m_id (author ctx))) s)
    as [[rp|e'] s1] eqn:Hc; simpl in Hc.
  - assert (Hs1 : rp = mkPlayer (next_id (map p_id (players s)))
                                (guild_id ctx) (m_id (author ctx)) 0 /\
                  s1 = mkStore (players s ++ [rp]) (items s) (links s)).
    { destruct uq, (find_player (guild_id ctx) (m_id (author ctx)) s);
        inversion Hc; auto. }
    destruct Hs1 as [Hrp ->].
    rewrite run_give_commit;
      [| simpl; apply in_or_app; now left
       | simpl; apply in_or_app; right; now left].
    simpl snd.
    apply (untouched_trans _ s (mkStore (players s ++ [rp]) (items s) (links s))).
    + subst rp. apply untouched_fresh.
    + apply untouched_commit; auto.
      * subst rp. now apply player_keys_unique_fresh.
      * simpl. apply in_or_app. now left.
      * simpl. apply in_or_app. right. now left.
      * subst rp. reflexivity.
  - destruct uq, (find_player (guild_id ctx) (m_id (author ctx)) s);
      inversion Hc; subst; apply untouched_refl.
Qed.

Lemma handle_untouched (uq : bool) (c : Command) (s : Store) :
  player_keys_unique s -> item_keys_unique s ->
  other_guilds_untouched (command_guild c) s (snd (run uq (handle c) s)).
Proof.
  intros Hpk Hik.
  destruct c as [randint ctx config|ctx config recipient amount|ctx config|ctx name];
    simpl handle; simpl command_guild.
  - destruct (role_set config) eqn:Hrole;
      [|unfold gacha_draw; rewrite Hrole; apply untouched_refl].
    destruct (gacha_enabled config) eqn:Hon;
      [|unfold gacha_draw; rewrite Hrole, Hon; apply untouched_refl].
    destruct (has_role (author ctx) (player_role config)) eqn:Hhas;
      [|unfold gacha_draw; rewrite Hrole, Hon, Hhas; apply untouched_refl].
    pose proof (untouched_ensure (guild_id ctx) (m_id (author ctx)) s) as H1.
    pose proof (player_keys_unique_ensure (guild_id ctx) (m_id (author ctx)) s Hpk)
      as Hpk1.
    destruct (ensure_player_spec (guild_id ctx) (m_id (author ctx)) s)
      as (Hin & Hisp & Hbal & Hitems & _).
    destruct (Z_le_gt_dec (gacha_currency_cost config)
                (balance_of (guild_id ctx) (m_id (author ctx)) s)) as [Hle|Hgt].
    + rewrite (run_draw_checked uq randint ctx config s Hrole Hon Hhas Hle).
      cbv zeta.
      destruct (Z.of_nat _ =? 0); [exact H1|].
      unfold picked. destruct (randint 0 _ <? 0); [exact H1|].
      destruct (nth_error _ _) as [e|] eqn:He; [|exact H1].
      simpl snd. apply (untouched_trans _ _ _ _ H1).
      apply nth_error_In, eligible_In in He as (Hein & Heg & _).
      apply untouched_drawn; auto.
      * unfold item_keys_unique. rewrite Hitems. exact Hik.
      * now apply is_player_guild in Hisp.
      * rewrite Hitems. exact Hein.
    + unfold gacha_draw. rewrite Hrole, Hon, Hhas. cbn [negb orb].
      rewrite run_get_or_create, Hbal.
      assert (Hlt : (balance_of (guild_id ctx) (m_id (author ctx)) s
                     <? gacha_currency_cost config) = true)
        by (apply Z.ltb_lt; lia).
      rewrite Hlt. exact H1.
  - unfold gacha_give_currency.
    destruct (negb (role_set config) || negb (gacha_enabled config));
      [apply untouched_refl|]. cbn [run exec].
    destruct (find_player (guild_id ctx) (m_id (author ctx)) s) as [p|] eqn:Hf.
    { apply find_player_In in Hf as [Hp Hisp].
      apply give_from_untouched; auto. now apply is_player_guild in Hisp. }
    destruct (has_role (author ctx) (player_role config)); cbn [negb run];
      [|apply untouched_refl].
    rewrite (exec_create_absent uq _ _ s Hf).
    eapply untouched_trans; [apply untouched_fresh|].
    apply give_from_untouched.
    + now apply player_keys_unique_fresh.
    + simpl. apply in_or_app. right. now left.
    + reflexivity.
  - unfold gacha_profile.
    destruct (negb (role_set config) || negb (gacha_enabled config));
      [apply untouched_refl|]. cbn [run exec].
    destruct (find_player (guild_id ctx) (m_id (author ctx)) s) eqn:Hf;
      [apply untouched_refl|].
    destruct (has_role (author ctx) (player_role config)); cbn [negb run];
      [|apply untouched_refl].
    rewrite (exec_create_absent uq _ _ s Hf). apply untouched_fresh.
  - unfold gacha_user_view_item. cbn [run exec].
    destruct (find _ (items s)); apply untouched_refl.
Qed.

Lemma find_in_guild (g u : Z) (l : list GachaPlayer) :
  find (is_player g u) l
  = find (is_player g u) (filter (fun p => p_guild_id p =? g) l).
Proof.
  induction l as [|p l IH]; simpl; [reflexivity|].
  unfold is_player at 1.
  destruct (p_guild_id p =? g) eqn:E; simpl.
  - unfold is_player at 2. rewrite E. simpl.
    destruct (p_user_id p =? u); [reflexivity | exact IH].
  - exact IH.
Qed.

(** X12. A command run on its own touches its own guild only: with
    unique keys, the player rows and the item rows of every other guild
    are afterwards what they were before, and so is every balance in
    every other guild. *)
Theorem commands_stay_in_their_guild (uq : bool) (c : Command) (s : Store) :
  player_keys_unique s ->
  item_keys_unique s ->
  let s' := snd (run uq (handle c) s) in
  other_guilds_untouched (command_guild c) s s' /\
  forall g' u, g' <> command_guild c -> balance_of g' u s' = balance_of g' u s.
Proof.
  intros Hpk Hik s'.
  pose proof (handle_untouched uq c s Hpk Hik) as H. fold s' in H.
  split; [exact H|].
  intros g' u Hg'. destruct (H g' Hg') as [Hp _].
  unfold balance_of, find_player.
  rewrite (find_in_guild g' u (players s')), (find_in_guild g' u (players s)), Hp.
  reflexivity.
Qed.

Lemma commands_stay_in_their_guild_witness :
  let s := mkStore (players Sample.store ++ [mkPlayer 3 200 1 40])
                   (items Sample.store ++ [mkItem 3 200 "C" 5])
                   [] in
  let s' := snd (run true (handle (Draw Sample.lowest Sample.as_alice
                                     Sample.config)) s) in
  other_guilds_untouched 100 s s' /\
  forall g' u, g' <> 100 -> balance_of g' u s' = balance_of g' u s.
Proof.
  intros s s'.
  apply (commands_stay_in_their_guild true
           (Draw Sample.lowest Sample.as_alice Sample.config) s).
  - unfold player_keys_unique. simpl.
    repeat constructor; simpl; intuition discriminate.
  - unfold item_keys_unique. simpl.
    repeat constructor; simpl; intuition discriminate.
Defined.

(** ** A refused command leaves no trace on the ledger *)

Lemma draw_failure (uq : bool) (randint : Z -> Z -> Z) (ctx : Context)
  (config : Config) (s s' : Store) (e : Error) :
  run uq (gacha_draw randint ctx config) s = (Err e, s') ->
  items s' = items s /\ links s' = links s /\
  forall g u, balance_of g u s' = balance_of g u s.
Proof.
  destruct (role_set config) eqn:Hrole.
  2:{ unfold gacha_draw. rewrite Hrole. intros H. inversion H. auto. }
  destruct (gacha_enabled config) eqn:Hon.
  2:{ unfold gacha_draw. rewrite Hrole, Hon. intros H. inversion H. auto. }
  destruct (has_role (author ctx) (player_role config)) eqn:Hhas.
  2:{ unfold gacha_draw. rewrite Hrole, Hon, Hhas. intros H. inversion H. auto. }
  destruct (ensure_player_spec (guild_id ctx) (m_id (author ctx)) s)
    as (_ & _ & Hbal & Hitems & Hlinks & Hsame & _).
  destruct (Z_le_gt_dec (gacha_currency_cost config)
              (balance_of (guild_id ctx) (m_id (author ctx)) s)) as [Hle|Hgt].
  - rewrite (run_draw_checked uq randint ctx config s Hrole Hon Hhas Hle).
    cbv zeta.
    destruct (Z.of_nat _ =? 0); [intros H; inversion H; subst; auto|].
    destruct (picked _ _ _) as [it|]; [discriminate|].
    intros H. inversion H; subst. auto.
  - unfold gacha_draw. rewrite Hrole, Hon, Hhas. cbn [negb orb].
    rewrite run_get_or_create, Hbal.
    assert (Hlt : (balance_of (guild_id ctx) (m_id (author ctx)) s
                   <? gacha_currency_cost config) = true)
      by (apply Z.ltb_lt; lia).
    rewrite Hlt. cbn [run]. intros H. inversion H; subst. auto.
Qed.

(** X10. A command that fails, run on its own, has changed no
    balance, no item and no ownership row: the draw, the transfer, the
    profile and the view-item command either go through or leave the
    ledger as it was. *)
Theorem failed_command_changes_nothing (uq : bool) (c : Command)
  (s s' : Store) (e : Error) :
  run uq (handle c) s = (Err e, s') ->
  items s' = items s /\ links s' = links s /\
  forall g u, balance_of g u s' = balance_of g u s.
Proof.
  destruct c as [randint ctx config|ctx config recipient amount|ctx config|ctx name];
    simpl handle.
  - apply draw_failure.
  - apply run_give_failure.
  - unfold gacha_profile.
    destruct (negb (role_set config) || negb (gacha_enabled config));
      [intros H; inversion H; auto|]. cbn [run exec].
    destruct (find_player (guild_id ctx) (m_id (author ctx)) s) eqn:Hf;
      [discriminate|].
    destruct (has_role (author ctx) (player_role config)); cbn [negb run];
      [|intros H; inversion H; auto].
    rewrite (exec_create_absent uq _ _ s Hf). discriminate.
  - unfold gacha_user_view_item. cbn [run exec].
    destruct (find _ (items s)); [discriminate|].
    intros H. inversion H. auto.
Qed.

Lemma failed_command_changes_nothing_witness :
  exists e s',
    run true (handle (Draw Sample.lowest Sample.as_carol Sample.config))
        Sample.store = (Err e, s') /\
    s' <> Sample.store /\
    items s' = items Sample.store /\ links s' = links Sample.store /\
    forall g u, balance_of g u s' = balance_of g u Sample.store.
Proof.
  eexists. eexists. split; [reflexivity|]. split; [discriminate|].
  eapply (failed_command_changes_nothing true
            (Draw Sample.lowest Sample.as_carol Sample.config) Sample.store).
  reflexivity.
Defined.
